(** * Firmware fingerprint matching of the retrofit port

    A shallow embedding of [selfdrive/car/retrofit/values.py]
    ([get_platform_codes], [match_fw_to_car_fuzzy] and the tables they read)
    and of [selfdrive/car/retrofit/retrofitcan.py] /
    [selfdrive/car/retrofit/carcontroller.py] (the steering command and the
    control frame that sends it).

    Python [bytes] are lists of [Byte.byte]; a [dict] is a [gmap], a [set] a
    [gset]; a dict that is iterated in insertion order with early exit is an
    association list.  Python exceptions are the [Raise] outcome of a small
    error monad, so that "does not raise" is a statement and not a property
    of the meta-language. *)

From Stdlib Require Import Strings.Byte.
From stdpp Require Import base option list strings gmap sets fin_maps.

(** ** Bytes *)

Abbreviation bytes := (list byte).

#[global] Instance byte_eq_dec : EqDecision byte := Byte.byte_eq_dec.

#[global] Program Instance byte_countable : Countable byte :=
  inj_countable Byte.to_N Byte.of_N _.
Next Obligation. intros x. apply Byte.of_to_N. Qed.

(** [b'...'] literals: the bytes of an ASCII string. *)
Definition bytes_of (s : string) : bytes := String.list_byte_of_string s.

(** [s[lo:hi]] for [0 <= lo <= hi]. *)
Definition slice (lo hi : nat) (s : bytes) : bytes := take (hi - lo) (drop lo s).

(** [s.lstrip(chars)], [s.rstrip(chars)], [s.strip(chars)]: the argument is
    the set of byte values to remove at the ends. *)
Fixpoint bytes_lstrip (chars s : bytes) : bytes :=
  match s with
  | [] => []
  | c :: s' => if bool_decide (c ∈ chars) then bytes_lstrip chars s' else s
  end.

Definition bytes_rstrip (chars s : bytes) : bytes :=
  reverse (bytes_lstrip chars (reverse s)).

Definition bytes_strip (chars s : bytes) : bytes :=
  bytes_rstrip chars (bytes_lstrip chars s).

(** [sep.join(parts)]. *)
Fixpoint bytes_join (sep : bytes) (parts : list bytes) : bytes :=
  match parts with
  | [] => []
  | [p] => p
  | p :: ps => p ++ sep ++ bytes_join sep ps
  end.

(** ** Exceptions *)

Inductive exn : Type :=
| IndexError
| KeyError (key : string)
| TypeError
| ValueError.

Inductive result (A : Type) : Type :=
| Ok (a : A)
| Raise (e : exn).
Arguments Ok {A} a.
Arguments Raise {A} e.

#[global] Instance result_ret : MRet result := fun _ a => Ok a.
#[global] Instance result_bind : MBind result := fun _ _ f m =>
  match m with
  | Ok a => f a
  | Raise e => Raise e
  end.

(** [l[i]] on a sequence. *)
Definition index {A} (l : list A) (i : nat) : result A :=
  match l !! i with
  | Some x => Ok x
  | None => Raise IndexError
  end.

(** [for x in xs: acc = body(acc, x)], stopping at the first exception. *)
Fixpoint for_each {A S} (body : S → A → result S) (acc : S) (xs : list A) : result S :=
  match xs with
  | [] => Ok acc
  | x :: xs' => acc' ← body acc x; for_each body acc' xs'
  end.

(** ** The regular expressions of values.py

    [SHORT_FW_PATTERN], [MEDIUM_FW_PATTERN] and [LONG_FW_PATTERN] are
    concatenations of fixed-width repetitions of the one class [[A-Z0-9]],
    some of them capturing.  Such a pattern is a list of fields; matching at
    a position needs no backtracking. *)

(** The character class [[A-Z0-9]] on bytes. *)
Definition is_upper_alnum (c : byte) : bool :=
  let n := Byte.to_N c in
  ((65 <=? n) && (n <=? 90) || (48 <=? n) && (n <=? 57))%N.

Record field : Type := Field { width : nat; captured : bool }.

(** [pattern.match(s)]: the captured groups when the fields match at the
    start of [s]. *)
Fixpoint re_match (pat : list field) (s : bytes) : option (list bytes) :=
  match pat with
  | [] => Some []
  | f :: pat' =>
      let g := take (width f) s in
      if (length g =? width f)%nat && forallb is_upper_alnum g then
        gs ← re_match pat' (drop (width f) s);
        Some (if captured f then g :: gs else gs)
      else None
  end.

(** [pattern.search(s).groups()]: the leftmost position where the pattern
    matches. *)
Fixpoint re_search (pat : list field) (s : bytes) : option (list bytes) :=
  match re_match pat s with
  | Some gs => Some gs
  | None =>
      match s with
      | [] => None
      | _ :: s' => re_search pat s'
      end
  end.

(** [[A-Z0-9](?P<platform>[A-Z0-9]{2})(?P<major_version>[A-Z0-9]{2})(?P<sub_version>[A-Z0-9]{3})] *)
Definition SHORT_FW_PATTERN : list field :=
  [Field 1 false; Field 2 true; Field 2 true; Field 3 true].

(** [(?P<part>[A-Z0-9]{5})(?P<platform>[A-Z0-9]{2})(?P<major_version>[A-Z0-9]{1})(?P<sub_version>[A-Z0-9]{2})] *)
Definition MEDIUM_FW_PATTERN : list field :=
  [Field 5 true; Field 2 true; Field 1 true; Field 2 true].

(** [(?P<part>[A-Z0-9]{5})(?P<platform>[A-Z0-9]{2})(?P<major_version>[A-Z0-9]{2})(?P<sub_version>[A-Z0-9]{3})] *)
Definition LONG_FW_PATTERN : list field :=
  [Field 5 true; Field 2 true; Field 2 true; Field 3 true].

(** [FW_LEN_CODE = re.compile(b'^[\x01-\x03]')]; [FW_LEN_CODE_search fw] is
    [FW_LEN_CODE.search(fw)], giving the matched text ([.group()]). *)
Definition FW_LEN_CODE_search (fw : bytes) : option bytes :=
  match fw with
  | c :: _ => if ((1 <=? Byte.to_N c) && (Byte.to_N c <=? 3))%N then Some [c] else None
  | [] => None
  end.

Definition FW_CHUNK_LEN : nat := 16.

(** ** get_platform_codes *)

(** [codes = defaultdict(set)]: platform code to set of sub-versions. *)
Abbreviation codes_t := (gmap bytes (gset bytes)).

(** [codes[key].add(sub_version)] on the [defaultdict(set)]. *)
Definition codes_add (key sub_version : bytes) (codes : codes_t) : codes_t :=
  <[key := default ∅ (codes !! key) ∪ {[sub_version]}]> codes.

(** Lines 90-94: the chunk count and the payload of a blob. *)
Definition parse_length_code (fw : bytes) : result (nat * bytes) :=
  match FW_LEN_CODE_search fw with
  | Some m => c ← index m 0; Ok (Byte.to_nat c, drop 1 fw)
  | None => Ok (1, fw)
  end.

(** Lines 104-121: the classification of the first chunk by its length. *)
Definition classify_first_chunk (codes : codes_t) (first_chunk : bytes) : result codes_t :=
  if (length first_chunk =? 8)%nat then
    match re_search SHORT_FW_PATTERN first_chunk with
    | Some groups =>
        match groups with
        | [platform; major_version; sub_version] =>
            Ok (codes_add (bytes_join (bytes_of "-") [platform; major_version]) sub_version codes)
        | _ => Raise ValueError
        end
    | None => Ok codes
    end
  else if (length first_chunk =? 10)%nat then
    match re_search MEDIUM_FW_PATTERN first_chunk with
    | Some groups =>
        match groups with
        | [part; platform; major_version; sub_version] =>
            Ok (codes_add (bytes_join (bytes_of "-") [part; platform; major_version]) sub_version codes)
        | _ => Raise ValueError
        end
    | None => Ok codes
    end
  else if (length first_chunk =? 12)%nat then
    match re_search LONG_FW_PATTERN first_chunk with
    | Some groups =>
        match groups with
        | [part; platform; major_version; sub_version] =>
            Ok (codes_add (bytes_join (bytes_of "-") [part; platform; major_version]) sub_version codes)
        | _ => Raise ValueError
        end
    | None => Ok codes
    end
  else Ok codes.

(** The chunks of a payload (line 100). *)
Definition fw_chunks (length_code : nat) (fw : bytes) : list bytes :=
  (λ i, bytes_strip [x00; x20]
          (slice (FW_CHUNK_LEN * i) (FW_CHUNK_LEN * i + FW_CHUNK_LEN) fw))
    <$> seq 0 length_code.

(** The body of the loop over [fw_versions] (lines 86-121). *)
Definition get_platform_codes_body (codes : codes_t) (fw : bytes) : result codes_t :=
  '(length_code, fw) ← parse_length_code fw;
  if negb (length_code * FW_CHUNK_LEN =? length fw)%nat then Ok codes
  else
    first_chunk ← index (fw_chunks length_code fw) 0;
    classify_first_chunk codes first_chunk.

Definition get_platform_codes (fw_versions : list bytes) : result codes_t :=
  for_each get_platform_codes_body ∅ fw_versions.

(** ** The catalog and the fuzzy matcher *)

(** [car.CarParams.Ecu]: the ECU kinds that values.py names. *)
Module Ecu.
Inductive t : Type :=
| eps | abs | fwdRadar | fwdCamera | engine | unknown | transmission
| hybrid | srs | gateway | hvac | combinationMeter | epb | telematics | dsu.

#[global] Instance eq_dec : EqDecision t.
Proof. solve_decision. Defined.
End Ecu.

(** The members of the [StrEnum] [CAR] are their string values, and [str]
    gives that value. *)
Module CAR.
Definition RSG_OFFROAD : string := "CUSTOM 4Runner RSG Offroad".
Definition str (c : string) : string := c.
End CAR.

(** An ECU identity [(kind, address, sub_address)] and its tail [ecu[1:]]. *)
Abbreviation ecu_id := (Ecu.t * Z * option Z)%type.
Abbreviation ecu_addr := (Z * option Z)%type.

Definition ecu_kind (ecu : ecu_id) : Ecu.t := ecu.1.1.
Definition ecu_tail (ecu : ecu_id) : ecu_addr := (ecu.1.2, ecu.2).

(** One catalog entry: a dict from ECU identity to its list of blobs, in
    insertion order (the matcher leaves its loop early). *)
Abbreviation fingerprint := (list (ecu_id * list bytes)).

(** [live_fw_versions]: address to set of observed blobs. *)
Abbreviation live_t := (gmap ecu_addr (gset bytes)).

Definition PLATFORM_CODE_ECUS : list Ecu.t := [Ecu.fwdCamera; Ecu.abs; Ecu.eps].

Section Matcher.
(** The two module-level tables that the matcher reads.  The catalog is a
    parameter so that the properties hold for every table and not only for
    the one of this file ([FW_VERSIONS] below).  [FUZZY_EXCLUDED_PLATFORMS]
    is built from [CAR.LEXUS_ES_TSS2] and [CAR.LEXUS_RX_TSS2], members that
    the [CAR] of this file does not declare, so it can only be a parameter. *)
Variable FW_VERSIONS : gmap string fingerprint.
Variable FUZZY_EXCLUDED_PLATFORMS : gset string.

(** [any(found_platform_code in expected_platform_codes
         for found_platform_code in found_platform_codes)] *)
Definition any_code_expected (expected_platform_codes found_platform_codes : codes_t) : bool :=
  existsb (λ found_platform_code,
             bool_decide (is_Some (expected_platform_codes !! found_platform_code)))
          (map_to_list found_platform_codes).*1.

(** The loop over [fws.items()] (lines 133-151); leaving it with [break]
    returns the addresses collected so far.  The observed blobs of an
    address are a set, read in the order of [elements]. *)
Fixpoint check_ecus (live_fw_versions : live_t) (fws : fingerprint)
    (valid_found_ecus : gset ecu_addr) : result (gset ecu_addr) :=
  match fws with
  | [] => Ok valid_found_ecus
  | (ecu, expected_versions) :: fws' =>
      let addr := ecu_tail ecu in
      if negb (bool_decide (ecu_kind ecu ∈ PLATFORM_CODE_ECUS)) then
        check_ecus live_fw_versions fws' valid_found_ecus
      else
        expected_platform_codes ← get_platform_codes expected_versions;
        found_platform_codes ←
          get_platform_codes (elements (default ∅ (live_fw_versions !! addr)));
        if negb (any_code_expected expected_platform_codes found_platform_codes) then
          Ok valid_found_ecus
        else
          check_ecus live_fw_versions fws' (valid_found_ecus ∪ {[addr]})
  end.

(** [{ecu[1:] for ecu in fws if ecu[0] in PLATFORM_CODE_ECUS}] *)
Definition valid_expected_ecus (fws : fingerprint) : gset ecu_addr :=
  list_to_set (ecu_tail <$> filter (λ ecu, ecu_kind ecu ∈ PLATFORM_CODE_ECUS) fws.*1).

(** The body of the loop over [FW_VERSIONS.items()] (lines 130-155). *)
Definition match_candidate (live_fw_versions : live_t) (candidates : gset string)
    (item : string * fingerprint) : result (gset string) :=
  let '(candidate, fws) := item in
  valid_found_ecus ← check_ecus live_fw_versions fws ∅;
  if bool_decide (valid_expected_ecus fws ⊆ valid_found_ecus) then
    Ok (candidates ∪ {[candidate]})
  else Ok candidates.

Definition match_fw_to_car_fuzzy (live_fw_versions : live_t) : result (gset string) :=
  candidates ← for_each (match_candidate live_fw_versions) ∅ (map_to_list FW_VERSIONS);
  Ok (set_map CAR.str (candidates ∖ FUZZY_EXCLUDED_PLATFORMS)).
End Matcher.

(** The catalog of values.py. *)
Definition FW_VERSIONS : gmap string fingerprint :=
  {[ CAR.RSG_OFFROAD := [
       ((Ecu.abs, 0x7b0, None), [
          bytes_of "F152607060" ++ replicate 6 x00
        ]);
       ((Ecu.dsu, 0x791, None), [
          bytes_of "881510701300" ++ replicate 4 x00;
          bytes_of "881510705100" ++ replicate 4 x00;
          bytes_of "881510705200" ++ replicate 4 x00
        ]);
       ((Ecu.eps, 0x7a1, None), [
          bytes_of "8965B41051" ++ replicate 6 x00
        ]);
       ((Ecu.engine, 0x7e0, None), [
          x02 :: bytes_of "30721100" ++ replicate 8 x00 ++ bytes_of "A0C01000" ++ replicate 8 x00;
          x02 :: bytes_of "30721200" ++ replicate 8 x00 ++ bytes_of "A0C01000" ++ replicate 8 x00
        ]);
       ((Ecu.fwdRadar, 0x750, Some 0xf), [
          bytes_of "8821F4702000" ++ replicate 4 x00;
          bytes_of "8821F4702100" ++ replicate 4 x00
        ]);
       ((Ecu.fwdCamera, 0x750, Some 0x6d), [
          bytes_of "8646F0701100" ++ replicate 4 x00;
          bytes_of "8646F0703000" ++ replicate 4 x00
        ])
     ] ]}%Z.

(** ** retrofitcan.py and carcontroller.py *)

(** What the controller takes from outside this repository's files: Python
    floats with their arithmetic, the CAN packer, and the helpers imported
    from [openpilot.selfdrive.car] and [openpilot.common.numpy_fast].  Any of
    the helpers may raise. *)
Class Externals : Type := {
  float : Type;
  float_lit : Z → Z → float;          (* the literal num/den, e.g. 0.001 *)
  fadd : float → float → float;
  fmul : float → float → float;
  fdiv : float → float → float;
  fneg : float → float;
  fabs : float → float;
  flt : float → float → bool;
  fge : float → float → bool;
  fgt : float → float → bool;
  int_round : float → Z;               (* int(round(x)) *)
  MPH_TO_MS : float;                   (* CV.MPH_TO_MS *)
  CANPacker : Type;
  can_msg : Type;
  actuators_rest : Type;               (* the fields of Actuators not used here *)
}.

(** The values stored in a message's signal dict. *)
Inductive value `{E : Externals} : Type :=
| VInt (z : Z)
| VBool (b : bool)
| VFloat (f : float).

(** [CarControllerParams]: the class constant [STEER_MAX] and the two limits
    set by [__init__]. *)
Record CarControllerParams : Type := {
  STEER_DELTA_UP : Z;
  STEER_DELTA_DOWN : Z;
}.
Definition STEER_MAX : Z := 1500.
Definition STEER_STEP : Z := 1.
Definition STEER_ERROR_MAX : Z := 350.

(** [CarControllerParams.__init__]; the argument is the outcome of the test
    [CP.lateralTuning.which == 'torque'] on the car parameters. *)
Definition CarControllerParams_init (lateralTuning_is_torque : bool) : CarControllerParams :=
  if lateralTuning_is_torque
  then {| STEER_DELTA_UP := 15; STEER_DELTA_DOWN := 25 |}
  else {| STEER_DELTA_UP := 10; STEER_DELTA_DOWN := 25 |}.

Class Helpers `{E : Externals} : Type := {
  packer_make_can_msg : CANPacker → string → Z → gmap string value → result can_msg;
  make_can_msg : Z → bytes → Z → result can_msg;
  apply_meas_steer_torque_limits : Z → Z → float → CarControllerParams → result Z;
  apply_std_steer_angle_limits : float → float → float → CarControllerParams → result float;
  common_fault_avoidance : bool → bool → Z → Z → result (Z * bool);
  clip : float → float → float → result float;
  interp : float → list float → list float → result float;
}.

Section Controller.
Context `{HE : Helpers}.

(** [values[key]] *)
Definition getitem (values : gmap string value) (key : string) : result value :=
  match values !! key with
  | Some v => Ok v
  | None => Raise (KeyError key)
  end.

(** The integer that [&], [<<] and [>>] see in a value. *)
Definition int_operand (v : value) : result Z :=
  match v with
  | VInt z => Ok z
  | VBool b => Ok (Z.b2z b)
  | VFloat _ => Raise TypeError
  end.

(** [v * k] for an int [k]. *)
Definition value_mul_int (v : value) (k : Z) : value :=
  match v with
  | VInt z => VInt (z * k)
  | VBool b => VInt (Z.b2z b * k)
  | VFloat f => VFloat (fmul f (float_lit k 1))
  end.

Definition toyota_checksum (addr : Z) (dat : list Z) (len : Z) : Z :=
  let cksum := foldl Z.add 0%Z dat in
  let cksum := (cksum + (Z.land addr 0xFF + Z.shiftr addr 8 + len))%Z in
  Z.land cksum 0xFF.

Definition create_toyota_steer_command (packer : CANPacker) (steer : Z) (steer_req : bool)
    : result can_msg :=
  let values : gmap string value :=
    {[ "STEER_REQUEST" := VBool steer_req;
       "STEER_TORQUE_CMD" := VInt steer;
       "SET_ME_1" := VInt 1 ]} in
  steer_request ← getitem values "STEER_REQUEST" ≫= int_operand;
  toyota_counter ← getitem values "TOYOTA_COUNTER" ≫= int_operand;
  set_me_1 ← getitem values "SET_ME_1" ≫= int_operand;
  let dat1 := Z.lor (Z.lor (Z.land steer_request 1)
                           (Z.land (Z.shiftl toyota_counter 1) 0x3F))
                    (Z.land (Z.shiftl set_me_1 7) 1) in
  steer_torque_cmd ← getitem values "STEER_TORQUE_CMD" ≫= int_operand;
  let dat2 := Z.land (Z.shiftr steer_torque_cmd 8) 0xFF in
  steer_torque_cmd ← getitem values "STEER_TORQUE_CMD" ≫= int_operand;
  let dat3 := Z.land steer_torque_cmd 0xFF in
  let dat := [dat1; dat2; dat3] in
  let values := <["TOYOTA_CHECKSUM" := VInt (toyota_checksum 0x2E4 dat 5)]> values in
  packer_make_can_msg packer "STEERING_LKA" 0 values.

Definition create_gas_command (packer : CANPacker) (gas_amount : float) (idx : Z)
    : result can_msg :=
  let enable := fgt gas_amount (float_lit 1 1000) in
  let values : gmap string value :=
    {[ "ENABLE" := VBool enable; "COUNTER" := VInt (Z.land idx 0xF) ]} in
  let values :=
    if enable then
      <["GAS_COMMAND2" := VFloat (fmul gas_amount (float_lit 255 1))]>
        (<["GAS_COMMAND" := VFloat (fmul gas_amount (float_lit 255 1))]> values)
    else values in
  packer_make_can_msg packer "OCELOT_PEDAL_GAS_COMMAND" 2 values.

Definition create_brake_cmd (packer : CANPacker) (enabled : bool) (brake : value)
    (raw_cnt : Z) : result can_msg :=
  let values : gmap string value :=
    {[ "BRAKE_POSITION_COMMAND" := VInt 0;
       "BRAKE_RELATIVE_COMMAND" := value_mul_int brake 252;
       "BRAKE_MODE" := VBool enabled;
       "COUNTER" := VInt raw_cnt ]} in
  packer_make_can_msg packer "OCELOT_BRAKE_COMMAND" 2 values.

(** [create_steer_command] (lines 27-35). *)
Definition create_steer_command (packer : CANPacker) (steer mode raw_cnt : value)
    : result can_msg :=
  let values : gmap string value :=
    {[ "STEER_MODE" := mode;
       "REQUESTED_STEER_TORQUE" := steer;
       "COUNTER" := raw_cnt ]} in
  packer_make_can_msg packer "OCELOT_STEERING_COMMAND" 2 values.

Inductive SteerControlType : Type := torque | angle.

Record CarParams : Type := {
  steerControlType : SteerControlType;
  enableDsu : bool;
  carFingerprint : string;
}.

Record Actuators : Type := {
  steer : float;
  steerOutputCan : Z;
  steeringAngleDeg : float;
  accel : float;
  gas : float;
  brake : float;
  other_actuators : actuators_rest;
}.

Record CarControl : Type := {
  CC_enabled : bool;
  CC_latActive : bool;
  CC_actuators : Actuators;
  CC_cruiseControl_cancel : bool;
}.

(** [CS.out] *)
Record CarState : Type := {
  out_steeringTorque : float;
  out_steeringTorqueEps : float;
  out_steeringRateDeg : float;
  out_steeringAngleDeg : float;
  out_steeringAngleOffsetDeg : float;
  out_vEgo : float;
}.

(** The attributes of a [CarController]. *)
Record CarController : Type := {
  self_CP : CarParams;
  self_params : CarControllerParams;
  self_frame : Z;
  self_last_steer : Z;
  self_last_angle : float;
  self_steer_rate_counter : Z;
  self_packer : CANPacker;
  self_gas : float;
  self_accel : float;
}.

Definition MAX_STEER_RATE : float := float_lit 100 1.
Definition MAX_STEER_RATE_FRAMES : Z := 18.
Definition MAX_USER_TORQUE : float := float_lit 500 1.
Definition MAX_STEER_ANGLE : float := float_lit 949461 10000.

Definition MIN_ACC_SPEED : float := fmul (float_lit 19 1) MPH_TO_MS.
Definition PEDAL_TRANSITION : float := fmul (float_lit 10 1) MPH_TO_MS.

(** [(addr, cars, bus, 1/freq*100, vl)]; [cars] is written [(CAR.X)],
    which is the string itself. *)
Definition STATIC_DSU_MSGS : list (Z * string * Z * Z * bytes) :=
  [ (0x128, CAR.RSG_OFFROAD, 1,   3, [xf4; x01; x90; x83; x00; x37]);
    (0x141, CAR.RSG_OFFROAD, 1,   2, [x00; x00; x00; x46]);
    (0x160, CAR.RSG_OFFROAD, 1,   7, [x00; x00; x08; x12; x01; x31; x9c; x51]);
    (0x161, CAR.RSG_OFFROAD, 1,   7, [x00; x1e; x00; x00; x00; x80; x07]);
    (0x283, CAR.RSG_OFFROAD, 0,   3, [x00; x00; x00; x00; x00; x00; x8c]);
    (0x344, CAR.RSG_OFFROAD, 0,   5, [x00; x00; x01; x00; x00; x00; x00; x50]);
    (0x365, CAR.RSG_OFFROAD, 0,  20, [x00; x00; x00; x80; xfc; x00; x08]);
    (0x366, CAR.RSG_OFFROAD, 0,  20, [x00; x72; x07; xff; x09; xfe; x00]);
    (0x4CB, CAR.RSG_OFFROAD, 0, 100, [x0c; x00; x00; x00; x00; x00; x00; x00]) ]%Z.

(** [needle in haystack] on strings. *)
Fixpoint str_contains (needle haystack : string) : bool :=
  String.prefix needle haystack
  || match haystack with
     | EmptyString => false
     | String _ rest => str_contains needle rest
     end.

(** The loop over [STATIC_DSU_MSGS] (lines 104-106). *)
Definition send_static_msg (self : CarController) (can_sends : list can_msg)
    (m : Z * string * Z * Z * bytes) : result (list can_msg) :=
  let '(addr, cars, bus, fr_step, vl) := m in
  if (self_frame self `mod` fr_step =? 0)%Z
     && enableDsu (self_CP self)
     && str_contains (carFingerprint (self_CP self)) cars
  then msg ← make_can_msg addr vl bus; Ok (can_sends ++ [msg])
  else Ok can_sends.

(** [CarController.update]: the new attributes, [new_actuators] and
    [can_sends]. *)
Definition update (self : CarController) (CC : CarControl) (CS : CarState) (now_nanos : Z)
    : result (CarController * Actuators * list can_msg) :=
  let actuators := CC_actuators CC in
  let pcm_cancel_cmd := CC_cruiseControl_cancel CC in
  let lat_active := CC_latActive CC && flt (fabs (out_steeringTorque CS)) MAX_USER_TORQUE in
  let can_sends : list can_msg := [] in
  let new_steer := int_round (fmul (steer actuators) (float_lit STEER_MAX 1)) in
  apply_steer ← apply_meas_steer_torque_limits new_steer (self_last_steer self)
                   (out_steeringTorqueEps CS) (self_params self);
  '(steer_rate_counter, apply_steer_req) ←
      common_fault_avoidance (fge (fabs (out_steeringRateDeg CS)) MAX_STEER_RATE)
        (CC_latActive CC) (self_steer_rate_counter self) MAX_STEER_RATE_FRAMES;
  let apply_steer := if negb (CC_latActive CC) then 0%Z else apply_steer in
  let apply_brake := VFloat (fmul (brake actuators) (float_lit 7 1)) in
  let apply_brake := if negb (CC_enabled CC) then VInt 0 else apply_brake in
  '(apply_steer, apply_steer_req, last_angle) ←
      match steerControlType (self_CP self) with
      | angle =>
          if (self_frame self `mod` 2 =? 0)%Z then
            let apply_angle := fadd (steeringAngleDeg actuators) (out_steeringAngleOffsetDeg CS) in
            apply_angle ← apply_std_steer_angle_limits apply_angle (self_last_angle self)
                             (out_vEgo CS) (self_params self);
            let apply_angle :=
              if negb lat_active
              then fadd (out_steeringAngleDeg CS) (out_steeringAngleOffsetDeg CS)
              else apply_angle in
            last_angle ← clip apply_angle (fneg MAX_STEER_ANGLE) MAX_STEER_ANGLE;
            Ok (0%Z, false, last_angle)
          else Ok (0%Z, false, self_last_angle self)
      | torque => Ok (apply_steer, apply_steer_req, self_last_angle self)
      end;
  let last_steer := apply_steer in
  msg ← create_toyota_steer_command (self_packer self) apply_steer apply_steer_req;
  let can_sends := can_sends ++ [msg] in
  let MAX_INTERCEPTOR_GAS := float_lit 5 10 in
  PEDAL_SCALE ← interp (out_vEgo CS)
                  [float_lit 0 1; MIN_ACC_SPEED; fadd MIN_ACC_SPEED PEDAL_TRANSITION]
                  [float_lit 4 10; float_lit 5 10; float_lit 0 1];
  pedal_offset ← interp (out_vEgo CS)
                   [float_lit 0 1; float_lit 23 10; fadd MIN_ACC_SPEED PEDAL_TRANSITION]
                   [float_lit (-4) 10; float_lit 0 1; float_lit 2 10];
  let pedal_command := fmul PEDAL_SCALE (fadd (accel actuators) pedal_offset) in
  interceptor_gas_cmd ← clip pedal_command (float_lit 0 1) MAX_INTERCEPTOR_GAS;
  '(can_sends, gas') ←
      (if (self_frame self `mod` 2 =? 0)%Z then
         gas_msg ← create_gas_command (self_packer self) interceptor_gas_cmd
                      (self_frame self `div` 2)%Z;
         brake_msg ← create_brake_cmd (self_packer self) (CC_enabled CC) apply_brake
                        (self_frame self `div` 2)%Z;
         Ok (can_sends ++ [gas_msg] ++ [brake_msg], interceptor_gas_cmd)
       else Ok (can_sends, self_gas self));
  can_sends ← for_each (send_static_msg self) can_sends STATIC_DSU_MSGS;
  let new_actuators :=
    {| steer := fdiv (float_lit apply_steer 1) (float_lit STEER_MAX 1);
       steerOutputCan := apply_steer;
       steeringAngleDeg := last_angle;
       accel := self_accel self;
       gas := gas';
       brake := brake actuators;
       other_actuators := other_actuators actuators |} in
  let self' :=
    {| self_CP := self_CP self;
       self_params := self_params self;
       self_frame := (self_frame self + 1)%Z;
       self_last_steer := last_steer;
       self_last_angle := last_angle;
       self_steer_rate_counter := steer_rate_counter;
       self_packer := self_packer self;
       self_gas := gas';
       self_accel := self_accel self |} in
  Ok (self', new_actuators, can_sends).
End Controller.

(** An instance of the two interfaces over the integers, on which the
    controller model runs: floats are integers, a literal is its rounded
    quotient, the packer returns the message name and the limiters return
    their request unchanged. *)
Definition integer_externals : Externals := {|
  float := Z;
  float_lit := Z.div;
  fadd := Z.add;
  fmul := Z.mul;
  fdiv := Z.div;
  fneg := Z.opp;
  fabs := Z.abs;
  flt := Z.ltb;
  fge := Z.geb;
  fgt := Z.gtb;
  int_round := id;
  MPH_TO_MS := 0%Z;
  CANPacker := unit;
  can_msg := string;
  actuators_rest := unit;
|}.

Definition integer_helpers : @Helpers integer_externals :=
  @Build_Helpers integer_externals
    (λ _ name _ _, Ok name)
    (λ _ _ _, Ok "static")
    (λ new_steer _ _ _, Ok new_steer)
    (λ apply_angle _ _ _, Ok apply_angle)
    (λ _ lat_active counter _, Ok (counter, lat_active))
    (λ x lo hi, Ok (Z.max lo (Z.min x hi)))
    (λ x _ _, Ok x).

(** ** Proof-side views of the parser

    Pure functions that the monadic code is shown to compute; the theorems
    are stated on the code and proved through these. *)

Definition total_width (pat : list field) : nat := sum_list (width <$> pat).

(** What one first chunk adds: its platform code and sub-version. *)
Definition chunk_code (first_chunk : bytes) : option (bytes * bytes) :=
  let dash := bytes_of "-" in
  if (length first_chunk =? 8)%nat then
    match re_match SHORT_FW_PATTERN first_chunk with
    | Some [platform; major_version; sub_version] =>
        Some (bytes_join dash [platform; major_version], sub_version)
    | _ => None
    end
  else if (length first_chunk =? 10)%nat then
    match re_match MEDIUM_FW_PATTERN first_chunk with
    | Some [part; platform; major_version; sub_version] =>
        Some (bytes_join dash [part; platform; major_version], sub_version)
    | _ => None
    end
  else if (length first_chunk =? 12)%nat then
    match re_match LONG_FW_PATTERN first_chunk with
    | Some [part; platform; major_version; sub_version] =>
        Some (bytes_join dash [part; platform; major_version], sub_version)
    | _ => None
    end
  else None.

Definition add_code (code : option (bytes * bytes)) (codes : codes_t) : codes_t :=
  match code with
  | Some (key, sub_version) => codes_add key sub_version codes
  | None => codes
  end.

(** Chunk count and payload of a blob. *)
Definition length_code_of (fw : bytes) : nat * bytes :=
  match fw with
  | c :: rest =>
      if ((1 <=? Byte.to_N c) && (Byte.to_N c <=? 3))%N then (Byte.to_nat c, rest)
      else (1, fw)
  | [] => (1, [])
  end.

(** What one blob adds. *)
Definition blob_code (fw : bytes) : option (bytes * bytes) :=
  let '(length_code, payload) := length_code_of fw in
  if (length_code * FW_CHUNK_LEN =? length payload)%nat then
    chunk_code (bytes_strip [x00; x20] (slice 0 FW_CHUNK_LEN payload))
  else None.

Definition platform_codes (fw_versions : list bytes) : codes_t :=
  foldl (λ codes fw, add_code (blob_code fw) codes) ∅ fw_versions.

(** The captured fields of a string, cut at the widths of the pattern. *)
Fixpoint split_groups (pat : list field) (s : bytes) : list bytes :=
  match pat with
  | [] => []
  | f :: pat' =>
      (if captured f then [take (width f) s] else [])
        ++ split_groups pat' (drop (width f) s)
  end.


(** The ECU passes the check of lines 140-148. *)
Definition ecu_passes (live_fw_versions : live_t) (ecu : ecu_id)
    (expected_versions : list bytes) : Prop :=
  any_code_expected
    (platform_codes expected_versions)
    (platform_codes (elements (default ∅ (live_fw_versions !! ecu_tail ecu)))) = true.

(** The candidate is added by line 155. *)
Definition accepted (live_fw_versions : live_t) (fws : fingerprint) : Prop :=
  ∃ valid_found_ecus,
    check_ecus live_fw_versions fws ∅ = Ok valid_found_ecus
    ∧ valid_expected_ecus fws ⊆ valid_found_ecus.

(** The observed fingerprint holds, at the address of every required ECU of
    the catalog entry, exactly the blobs of the catalog. *)
Definition identical_on_required (live_fw_versions : live_t) (fws : fingerprint) : Prop :=
  ∀ ecu expected_versions,
    (ecu, expected_versions) ∈ fws →
    ecu_kind ecu ∈ PLATFORM_CODE_ECUS →
    default ∅ (live_fw_versions !! ecu_tail ecu) = list_to_set expected_versions.

(** The fields of the 8-byte layout as the specification reads them: the
    platform, major version and sub-version are in [[A-Z0-9]] and the first
    byte is not looked at. *)
Definition short_fields_valid (first_chunk : bytes) : bool :=
  forallb is_upper_alnum (slice 1 3 first_chunk)
  && forallb is_upper_alnum (slice 3 5 first_chunk)
  && forallb is_upper_alnum (slice 5 8 first_chunk).

(** The catalog blobs of an ECU and the blobs observed at its address have a
    platform code in common, as [get_platform_codes] reads them. *)
Definition shares_platform_code (live_fw_versions : live_t) (ecu : ecu_id)
    (expected_versions : list bytes) : Prop :=
  ∃ (expected found : codes_t) (key : bytes),
    get_platform_codes expected_versions = Ok expected
    ∧ get_platform_codes (elements (default ∅ (live_fw_versions !! ecu_tail ecu))) = Ok found
    ∧ is_Some (expected !! key) ∧ is_Some (found !! key).

(** The ECU is one that the matcher checks. *)
Definition required (entry : ecu_id * list bytes) : Prop :=
  ecu_kind entry.1 ∈ PLATFORM_CODE_ECUS.

(** The shapes a platform code and its sub-version can have: the widths of
    the dash-separated parts of the key and of the sub-version, for the
    8-, 10- and 12-byte templates. *)
Definition code_shapes : list (list nat * nat) :=
  [([2; 2], 3); ([5; 2; 1], 2); ([5; 2; 2], 3)].

Definition code_format (key sub_version : bytes) : Prop :=
  ∃ parts : list bytes,
    key = bytes_join (bytes_of "-") parts
    ∧ Forall (λ part, forallb is_upper_alnum part = true) parts
    ∧ forallb is_upper_alnum sub_version = true
    ∧ (length <$> parts, length sub_version) ∈ code_shapes.

(** [sum(dat)] as the loop of [toyota_checksum] computes it. *)
Definition sum_bytes (dat : list Z) : Z := foldl Z.add 0%Z dat.

(** The addresses that the loop of [check_ecus] adds: those of the checked
    ECUs up to the first one that fails. *)
Fixpoint collected_ecus (live_fw_versions : live_t) (fws : fingerprint) : gset ecu_addr :=
  match fws with
  | [] => ∅
  | (ecu, expected_versions) :: fws' =>
      if bool_decide (ecu_kind ecu ∈ PLATFORM_CODE_ECUS) then
        if any_code_expected
             (platform_codes expected_versions)
             (platform_codes (elements (default ∅ (live_fw_versions !! ecu_tail ecu))))
        then {[ecu_tail ecu]} ∪ collected_ecus live_fw_versions fws'
        else ∅
      else collected_ecus live_fw_versions fws'
  end.

(** A catalog entry without the ECUs that the matcher skips. *)
Definition required_only (fws : fingerprint) : fingerprint :=
  filter required fws.

(** ** Tactics *)

(** Closes [x = v] for closed [x] by evaluating [x]. *)
Ltac by_evaluation :=
  lazymatch goal with
  | |- @eq ?T ?x ?v => vm_cast_no_check (@eq_refl T v)
  end.

(** Closes a goal from [Hk], which says that an ECU kind outside
    [PLATFORM_CODE_ECUS] is in it. *)
Ltac not_required Hk :=
  exfalso;
  repeat (apply elem_of_cons in Hk as [Hk|Hk]; [discriminate Hk|]);
  by apply elem_of_nil in Hk.

(** ** Examples *)

Example get_platform_codes_abs :
  get_platform_codes [bytes_of "F152607060" ++ replicate 6 x00]
  = Ok {[bytes_of "F1526-07-0" := {[bytes_of "60"]}]}.
Proof. by_evaluation. Qed.

Example get_platform_codes_engine :
  get_platform_codes
    [x02 :: bytes_of "30721100" ++ replicate 8 x00 ++ bytes_of "A0C01000" ++ replicate 8 x00]
  = Ok {[bytes_of "07-21" := {[bytes_of "100"]}]}.
Proof. by_evaluation. Qed.

Example match_catalog_against_itself :
  match_fw_to_car_fuzzy FW_VERSIONS ∅
    {[ (0x7b0, None) := {[bytes_of "F152607060" ++ replicate 6 x00]};
       (0x7a1, None) := {[bytes_of "8965B41051" ++ replicate 6 x00]};
       (0x750, Some 0x6d) := {[bytes_of "8646F0701100" ++ replicate 4 x00]} ]}%Z
  = Ok {[CAR.RSG_OFFROAD]}.
Proof. by_evaluation. Qed.

(** ** Lemmas on the patterns *)

Lemma re_match_short pat s :
  length s < total_width pat → re_match pat s = None.
Proof.
  revert s. induction pat as [|f pat IH]; intros s Hlen.
  { cbv in Hlen. lia. }
  change (total_width (f :: pat)) with (width f + total_width pat) in Hlen. cbn.
  destruct (length (take (width f) s) =? width f)%nat eqn:Hw; [|done].
  apply Nat.eqb_eq in Hw. rewrite length_take in Hw.
  rewrite IH; [by destruct (forallb _ _)|].
  rewrite length_drop. lia.
Qed.

Lemma re_search_short pat s :
  length s < total_width pat → re_search pat s = None.
Proof.
  induction s as [|c s IH]; intros Hlen; cbn.
  - by rewrite re_match_short.
  - rewrite re_match_short by done. apply IH. cbn in Hlen. lia.
Qed.

Lemma re_search_exact pat s :
  length s = total_width pat → re_search pat s = re_match pat s.
Proof.
  intros Hlen. destruct s as [|c s]; cbn.
  - by destruct (re_match pat []).
  - destruct (re_match pat (c :: s)); [done|].
    apply re_search_short. cbn in Hlen. lia.
Qed.

Lemma re_match_all pat s :
  total_width pat ≤ length s →
  forallb is_upper_alnum (take (total_width pat) s) = true →
  re_match pat s = Some (split_groups pat s).
Proof.
  revert s. induction pat as [|f pat IH]; intros s Hlen Hall; [done|].
  change (total_width (f :: pat)) with (width f + total_width pat) in *.
  rewrite <-take_take_drop, forallb_app in Hall.
  apply andb_true_iff in Hall as [Hf Hrest]. cbn.
  rewrite length_take_le, Nat.eqb_refl, Hf by lia. cbn.
  rewrite IH; [by destruct (captured f)| rewrite length_drop; lia | done].
Qed.

Lemma re_match_not_all pat s :
  forallb is_upper_alnum (take (total_width pat) s) = false →
  re_match pat s = None.
Proof.
  revert s. induction pat as [|f pat IH]; intros s Hall; [done|].
  change (total_width (f :: pat)) with (width f + total_width pat) in *.
  rewrite <-take_take_drop, forallb_app in Hall. cbn.
  destruct (length (take (width f) s) =? width f)%nat; [|done].
  destruct (forallb is_upper_alnum (take (width f) s)); [|done].
  cbn in *. by rewrite IH.
Qed.

Lemma re_match_groups pat s gs :
  re_match pat s = Some gs → gs = split_groups pat s.
Proof.
  intros Hm.
  destruct (decide (total_width pat ≤ length s)) as [Hlen|Hlen].
  - destruct (forallb is_upper_alnum (take (total_width pat) s)) eqn:Hall.
    + rewrite re_match_all in Hm by done. congruence.
    + rewrite re_match_not_all in Hm by done. done.
  - rewrite re_match_short in Hm by lia. done.
Qed.

(** ** The monadic parser computes the pure views *)

Lemma parse_length_code_spec fw :
  parse_length_code fw = Ok (length_code_of fw).
Proof.
  destruct fw as [|c rest]; [done|].
  unfold parse_length_code, length_code_of, FW_LEN_CODE_search.
  by destruct (_ && _).
Qed.

Lemma length_code_of_pos fw : 1 ≤ (length_code_of fw).1.
Proof.
  destruct fw as [|c rest]; cbn; [lia|].
  destruct (_ && _) eqn:Hc; cbn; [|lia].
  apply andb_true_iff in Hc as [Hc _]. apply N.leb_le in Hc.
  rewrite Byte.to_nat_via_N. lia.
Qed.

Lemma classify_first_chunk_spec codes first_chunk :
  classify_first_chunk codes first_chunk
  = Ok (add_code (chunk_code first_chunk) codes).
Proof.
  unfold classify_first_chunk, chunk_code.
  destruct (length first_chunk =? 8)%nat eqn:H8.
  { apply Nat.eqb_eq in H8. rewrite re_search_exact by done.
    destruct (re_match _ _) as [gs|] eqn:Hm; [|done].
    by rewrite (re_match_groups _ _ _ Hm). }
  destruct (length first_chunk =? 10)%nat eqn:H10.
  { apply Nat.eqb_eq in H10. rewrite re_search_exact by done.
    destruct (re_match _ _) as [gs|] eqn:Hm; [|done].
    by rewrite (re_match_groups _ _ _ Hm). }
  destruct (length first_chunk =? 12)%nat eqn:H12; [|done].
  apply Nat.eqb_eq in H12. rewrite re_search_exact by done.
  destruct (re_match _ _) as [gs|] eqn:Hm; [|done].
  by rewrite (re_match_groups _ _ _ Hm).
Qed.

Lemma fw_chunks_first length_code payload :
  1 ≤ length_code →
  index (fw_chunks length_code payload) 0
  = Ok (bytes_strip [x00; x20] (slice 0 FW_CHUNK_LEN payload)).
Proof. intros Hn. destruct length_code; [lia|done]. Qed.

Lemma get_platform_codes_body_spec codes fw :
  get_platform_codes_body codes fw = Ok (add_code (blob_code fw) codes).
Proof.
  unfold get_platform_codes_body, blob_code.
  rewrite parse_length_code_spec. cbn.
  pose proof (length_code_of_pos fw) as Hpos.
  destruct (length_code_of fw) as [n payload]. cbn in Hpos.
  destruct (n * FW_CHUNK_LEN =? length payload)%nat; cbn; [|done].
  rewrite fw_chunks_first by done. cbn.
  apply classify_first_chunk_spec.
Qed.

Lemma for_each_body_spec codes fw_versions :
  for_each get_platform_codes_body codes fw_versions
  = Ok (foldl (λ codes fw, add_code (blob_code fw) codes) codes fw_versions).
Proof.
  revert codes. induction fw_versions as [|fw l IH]; intros codes; [done|].
  cbn. rewrite get_platform_codes_body_spec. cbn. apply IH.
Qed.

Lemma get_platform_codes_spec fw_versions :
  get_platform_codes fw_versions = Ok (platform_codes fw_versions).
Proof. apply for_each_body_spec. Qed.

(** ** The index as a relation between blobs and codes *)

Lemma codes_add_lookup (key sub_version : bytes) (codes : codes_t) (k s : bytes) :
  s ∈ default ∅ (codes_add key sub_version codes !! k)
  ↔ s ∈ default ∅ (codes !! k) ∨ (k = key ∧ s = sub_version).
Proof.
  unfold codes_add. destruct (decide (key = k)) as [->|Hne].
  - rewrite lookup_insert_eq. cbn. set_solver.
  - rewrite lookup_insert_ne by done. naive_solver.
Qed.

Lemma codes_add_nonempty (key sub_version : bytes) (codes : codes_t) :
  (∀ k S, codes !! k = Some S → S ≠ ∅) →
  ∀ k S, codes_add key sub_version codes !! k = Some S → S ≠ ∅.
Proof.
  intros Hinv k S. unfold codes_add. destruct (decide (key = k)) as [->|Hne].
  - rewrite lookup_insert_eq. intros [= <-]. set_solver.
  - rewrite lookup_insert_ne by done. apply Hinv.
Qed.

Lemma foldl_add_code_lookup (fw_versions : list bytes) (codes : codes_t) (k s : bytes) :
  s ∈ default ∅ (foldl (λ codes fw, add_code (blob_code fw) codes) codes fw_versions !! k)
  ↔ s ∈ default ∅ (codes !! k) ∨ ∃ fw, fw ∈ fw_versions ∧ blob_code fw = Some (k, s).
Proof.
  revert codes. induction fw_versions as [|fw l IH]; intros codes; cbn.
  - split; [by left|]. intros [?|(fw & Hin & _)]; [done|]. by apply elem_of_nil in Hin.
  - rewrite IH. destruct (blob_code fw) as [[key sub]|] eqn:Hfw; cbn.
    + rewrite codes_add_lookup. split.
      * intros [[?|[-> ->]]|(fw' & Hin & Hc)]; [by left| |].
        -- right. exists fw. split; [apply list_elem_of_here|done].
        -- right. exists fw'. split; [by apply list_elem_of_further|done].
      * intros [?|(fw' & Hin & Hc)]; [by left; left|].
        apply elem_of_cons in Hin as [->|Hin].
        -- left; right. split; congruence.
        -- right. by exists fw'.
    + split.
      * intros [?|(fw' & Hin & Hc)]; [by left|].
        right. exists fw'. split; [by apply list_elem_of_further|done].
      * intros [?|(fw' & Hin & Hc)]; [by left|].
        apply elem_of_cons in Hin as [->|Hin]; [congruence|].
        right. by exists fw'.
Qed.

Lemma foldl_add_code_nonempty (fw_versions : list bytes) (codes : codes_t) :
  (∀ k S, codes !! k = Some S → S ≠ ∅) →
  ∀ k S, foldl (λ codes fw, add_code (blob_code fw) codes) codes fw_versions !! k = Some S →
         S ≠ ∅.
Proof.
  revert codes. induction fw_versions as [|fw l IH]; intros codes Hinv; cbn; [done|].
  apply IH. destruct (blob_code fw) as [[key sub]|]; cbn; [|done].
  by apply codes_add_nonempty.
Qed.

Lemma platform_codes_lookup fw_versions k s :
  s ∈ default ∅ (platform_codes fw_versions !! k)
  ↔ ∃ fw, fw ∈ fw_versions ∧ blob_code fw = Some (k, s).
Proof.
  unfold platform_codes. rewrite foldl_add_code_lookup, lookup_empty. cbn.
  set_solver.
Qed.

Lemma platform_codes_nonempty fw_versions k S :
  platform_codes fw_versions !! k = Some S → S ≠ ∅.
Proof. apply foldl_add_code_nonempty. intros k' S'. by rewrite lookup_empty. Qed.

(** A platform code is a key of the index exactly when some blob yields it. *)
Lemma platform_codes_is_Some fw_versions k :
  is_Some (platform_codes fw_versions !! k)
  ↔ ∃ fw s, fw ∈ fw_versions ∧ blob_code fw = Some (k, s).
Proof.
  split.
  - intros [S HS]. pose proof (platform_codes_nonempty _ _ _ HS) as Hne.
    apply set_choose_L in Hne as [s Hs].
    assert (s ∈ default ∅ (platform_codes fw_versions !! k)) as Hk by (by rewrite HS).
    apply platform_codes_lookup in Hk as (fw & Hin & Hc). by exists fw, s.
  - intros (fw & s & Hin & Hc).
    assert (s ∈ default ∅ (platform_codes fw_versions !! k)) as Hs.
    { apply platform_codes_lookup. eauto. }
    destruct (platform_codes fw_versions !! k); [done|]. set_solver.
Qed.

Lemma platform_codes_ext l1 l2 :
  (∀ fw, fw ∈ l1 ↔ fw ∈ l2) → platform_codes l1 = platform_codes l2.
Proof.
  intros Hsame. apply map_eq. intros k.
  assert (∀ s, s ∈ default ∅ (platform_codes l1 !! k)
             ↔ s ∈ default ∅ (platform_codes l2 !! k)) as Hs.
  { intros s. rewrite !platform_codes_lookup. naive_solver. }
  destruct (platform_codes l1 !! k) as [S1|] eqn:H1,
           (platform_codes l2 !! k) as [S2|] eqn:H2; cbn in Hs.
  - f_equal. apply set_eq. done.
  - apply platform_codes_nonempty in H1. set_solver.
  - apply platform_codes_nonempty in H2. set_solver.
  - done.
Qed.

(** ** The matcher, ECU by ECU *)

Lemma any_code_expected_true (expected found : codes_t) :
  any_code_expected expected found = true
  ↔ ∃ k, is_Some (found !! k) ∧ is_Some (expected !! k).
Proof.
  unfold any_code_expected. rewrite existsb_exists. split.
  - intros (k & Hin & Hk). exists k.
    apply list_elem_of_In, list_elem_of_fmap in Hin as ([k' S] & -> & Hin).
    apply elem_of_map_to_list in Hin. cbn. split; [by eexists|].
    by apply bool_decide_eq_true_1 in Hk.
  - intros (k & [S HS] & Hk). exists k. split.
    + apply list_elem_of_In, list_elem_of_fmap. exists (k, S).
      split; [done|]. by apply elem_of_map_to_list.
    + by apply bool_decide_eq_true_2.
Qed.

Lemma valid_expected_ecus_elem (fws : fingerprint) (a : ecu_addr) :
  a ∈ valid_expected_ecus fws
  ↔ ∃ ecu blobs, (ecu, blobs) ∈ fws ∧ ecu_kind ecu ∈ PLATFORM_CODE_ECUS ∧ ecu_tail ecu = a.
Proof.
  unfold valid_expected_ecus. rewrite elem_of_list_to_set, list_elem_of_fmap. split.
  - intros (ecu & -> & Hin). apply list_elem_of_filter in Hin as [Hk Hin].
    apply list_elem_of_fmap in Hin as ([ecu' blobs] & -> & Hin). by exists ecu', blobs.
  - intros (ecu & blobs & Hin & Hk & <-). exists ecu. split; [done|].
    apply list_elem_of_filter. split; [done|].
    apply list_elem_of_fmap. by exists (ecu, blobs).
Qed.

Lemma valid_expected_ecus_cons (ecu : ecu_id) (blobs : list bytes) (fws : fingerprint) :
  valid_expected_ecus ((ecu, blobs) :: fws)
  = (if bool_decide (ecu_kind ecu ∈ PLATFORM_CODE_ECUS) then {[ecu_tail ecu]} else ∅)
      ∪ valid_expected_ecus fws.
Proof.
  unfold valid_expected_ecus. rewrite fmap_cons, filter_cons. cbn [fst].
  case_bool_decide as Hk.
  - rewrite decide_True by done. by rewrite fmap_cons, list_to_set_cons.
  - rewrite decide_False by done. set_solver.
Qed.

(** The loop neither raises nor collects an address whose ECU did not pass. *)
Lemma check_ecus_found (live : live_t) (fws : fingerprint) (valid_found_ecus : gset ecu_addr) :
  ∃ found, check_ecus live fws valid_found_ecus = Ok found
    ∧ ∀ a, a ∈ found →
        a ∈ valid_found_ecus
        ∨ ∃ ecu blobs, (ecu, blobs) ∈ fws ∧ ecu_kind ecu ∈ PLATFORM_CODE_ECUS
                       ∧ ecu_tail ecu = a ∧ ecu_passes live ecu blobs.
Proof.
  revert valid_found_ecus.
  induction fws as [|[ecu blobs] fws IH]; intros vf; cbn.
  - exists vf. split; [done|]. by left.
  - case_bool_decide as Hk; cbn.
    + rewrite !get_platform_codes_spec. cbn.
      destruct (any_code_expected _ _) eqn:Hany; cbn.
      * destruct (IH (vf ∪ {[ecu_tail ecu]})) as (found & -> & Hfound).
        exists found. split; [done|]. intros a Ha.
        destruct (Hfound a Ha) as [Hvf|(ecu' & blobs' & Hin & ? & ? & ?)].
        -- apply elem_of_union in Hvf as [Hvf|Hvf]; [by left|].
           apply elem_of_singleton in Hvf as ->. right.
           exists ecu, blobs. split; [apply list_elem_of_here|done].
        -- right. exists ecu', blobs'. split; [by apply list_elem_of_further|done].
      * exists vf. split; [done|]. by left.
    + destruct (IH vf) as (found & -> & Hfound).
      exists found. split; [done|]. intros a Ha.
      destruct (Hfound a Ha) as [Hvf|(ecu' & blobs' & Hin & ? & ? & ?)]; [by left|].
      right. exists ecu', blobs'. split; [by apply list_elem_of_further|done].
Qed.

(** When every required ECU passes, the loop runs to its end and collects
    every required address. *)
Lemma check_ecus_all (live : live_t) (fws : fingerprint) (valid_found_ecus : gset ecu_addr) :
  (∀ ecu blobs, (ecu, blobs) ∈ fws → ecu_kind ecu ∈ PLATFORM_CODE_ECUS →
                ecu_passes live ecu blobs) →
  check_ecus live fws valid_found_ecus = Ok (valid_found_ecus ∪ valid_expected_ecus fws).
Proof.
  revert valid_found_ecus.
  induction fws as [|[ecu blobs] fws IH]; intros vf Hpass.
  - cbn. f_equal. unfold valid_expected_ecus. cbn. set_solver.
  - rewrite valid_expected_ecus_cons. cbn.
    case_bool_decide as Hk; cbn.
    + rewrite !get_platform_codes_spec. cbn.
      rewrite (Hpass ecu blobs (list_elem_of_here _ _) Hk). cbn.
      rewrite IH.
      * f_equal. set_solver.
      * intros ecu' blobs' Hin. apply Hpass. by apply list_elem_of_further.
    + rewrite IH.
      * f_equal. set_solver.
      * intros ecu' blobs' Hin. apply Hpass. by apply list_elem_of_further.
Qed.

Lemma match_candidate_spec (live : live_t) (candidates : gset string)
    (candidate : string) (fws : fingerprint) :
  ∃ s, match_candidate live candidates (candidate, fws) = Ok s
    ∧ ∀ c, c ∈ s ↔ c ∈ candidates ∨ (c = candidate ∧ accepted live fws).
Proof.
  unfold match_candidate, accepted.
  destruct (check_ecus_found live fws ∅) as (found & -> & _). cbn.
  case_bool_decide as Hsub.
  - eexists. split; [done|]. intros c. rewrite elem_of_union, elem_of_singleton.
    split; [|naive_solver]. intros [?| ->]; [by left|]. right. split; [done|]. by exists found.
  - eexists. split; [done|]. intros c. split; [by left|].
    intros [?|[_ (found' & Heq & ?)]]; [done|]. by injection Heq as <-.
Qed.

Lemma match_candidates_spec (live : live_t) (candidates : gset string)
    (items : list (string * fingerprint)) :
  ∃ s, for_each (match_candidate live) candidates items = Ok s
    ∧ ∀ c, c ∈ s ↔ c ∈ candidates ∨ ∃ fws, (c, fws) ∈ items ∧ accepted live fws.
Proof.
  revert candidates. induction items as [|[candidate fws] items IH]; intros cs.
  - exists cs. split; [done|]. intros c. split; [by left|].
    intros [?|(fws & Hin & _)]; [done|]. by apply elem_of_nil in Hin.
  - cbn [for_each].
    destruct (match_candidate_spec live cs candidate fws) as (s1 & -> & Hs1). cbn.
    destruct (IH s1) as (s & -> & Hs). exists s. split; [done|].
    intros c. rewrite Hs, Hs1. split.
    + intros [[?|[-> Hacc]]|(fws' & Hin & Hacc)]; [by left| |].
      * right. exists fws. split; [apply list_elem_of_here|done].
      * right. exists fws'. split; [by apply list_elem_of_further|done].
    + intros [?|(fws' & Hin & Hacc)]; [by left; left|].
      apply elem_of_cons in Hin as [[= -> ->]|Hin]; [by left; right|].
      right. by exists fws'.
Qed.

Lemma set_map_str (X : gset string) : set_map CAR.str X = X.
Proof.
  apply set_eq. intros c. rewrite elem_of_map. unfold CAR.str. naive_solver.
Qed.

(** The result of the matcher: the accepted candidates of the catalog that
    are not excluded. *)
Lemma match_fw_to_car_fuzzy_spec (FW : gmap string fingerprint) (EXCL : gset string)
    (live : live_t) :
  ∃ s, match_fw_to_car_fuzzy FW EXCL live = Ok s
    ∧ ∀ c, c ∈ s ↔ (∃ fws, FW !! c = Some fws ∧ accepted live fws) ∧ c ∉ EXCL.
Proof.
  unfold match_fw_to_car_fuzzy.
  destruct (match_candidates_spec live ∅ (map_to_list FW)) as (cs & -> & Hcs). cbn.
  eexists. split; [done|]. intros c.
  rewrite set_map_str, elem_of_difference, Hcs. split.
  - intros [[Hc|(fws & Hin & Hacc)] Hex]; [by apply not_elem_of_empty in Hc|].
    apply elem_of_map_to_list in Hin. eauto.
  - intros [(fws & Hin & Hacc) Hex]. split; [|done]. right.
    exists fws. split; [|done]. by apply elem_of_map_to_list.
Qed.

(** ** Properties of get_platform_codes *)

Lemma blob_code_of_parse fw length_code payload :
  parse_length_code fw = Ok (length_code, payload) →
  length_code_of fw = (length_code, payload) ∧ 1 ≤ length_code.
Proof.
  rewrite parse_length_code_spec. intros [= Heq].
  pose proof (length_code_of_pos fw) as Hpos. rewrite Heq in *. done.
Qed.

Lemma platform_codes_singleton fw :
  platform_codes [fw] = add_code (blob_code fw) ∅.
Proof. done. Qed.

Lemma platform_codes_middle before fw after :
  platform_codes (before ++ fw :: after)
  = foldl (λ codes fw, add_code (blob_code fw) codes)
          (add_code (blob_code fw) (platform_codes before)) after.
Proof. unfold platform_codes. by rewrite foldl_app. Qed.

(** C4: the codes depend only on the length-prefix byte and the first
    16-byte chunk of the payload.  Two blobs with the same chunk count,
    both of valid length, whose payloads agree on the first 16 bytes, can
    replace one another anywhere in the input without changing the
    result. *)
Theorem later_chunks_ignored (before after : list bytes) (fw1 fw2 : bytes)
    (length_code : nat) (payload1 payload2 : bytes) :
  parse_length_code fw1 = Ok (length_code, payload1) →
  parse_length_code fw2 = Ok (length_code, payload2) →
  length payload1 = length_code * FW_CHUNK_LEN →
  length payload2 = length_code * FW_CHUNK_LEN →
  take FW_CHUNK_LEN payload1 = take FW_CHUNK_LEN payload2 →
  get_platform_codes (before ++ fw1 :: after)
  = get_platform_codes (before ++ fw2 :: after).
Proof.
  intros H1 H2 Hl1 Hl2 Hfirst.
  apply blob_code_of_parse in H1 as [H1 _], H2 as [H2 _].
  rewrite !get_platform_codes_spec, !platform_codes_middle. do 3 f_equal.
  unfold blob_code, slice. rewrite H1, H2, Hl1, Hl2, Nat.eqb_refl.
  rewrite !drop_0, Nat.sub_0_r. by rewrite Hfirst.
Qed.

Lemma later_chunks_ignored_witness :
  let fw1 := x02 :: bytes_of "30721100" ++ replicate 8 x00
                 ++ bytes_of "A0C01000" ++ replicate 8 x00 in
  let fw2 := x02 :: bytes_of "30721100" ++ replicate 8 x00
                 ++ bytes_of "B1D02111" ++ replicate 8 x00 in
  fw1 ≠ fw2 ∧ get_platform_codes [fw1] = get_platform_codes [fw2].
Proof.
  split; [discriminate|].
  apply (later_chunks_ignored [] [] _ _ 2
           (bytes_of "30721100" ++ replicate 8 x00 ++ bytes_of "A0C01000" ++ replicate 8 x00)
           (bytes_of "30721100" ++ replicate 8 x00 ++ bytes_of "B1D02111" ++ replicate 8 x00));
    reflexivity.
Defined.

(** C5: a blob whose trimmed first chunk is [F152607060] is read under the
    10-byte template as part [F1526], platform [07], major version [0] and
    sub-version [60]; alone, it gives the index with the single key
    [F1526-07-0] and the sub-version set [{60}]. *)
Theorem medium_chunk_F152607060 (fw : bytes) (length_code : nat) (payload : bytes) :
  parse_length_code fw = Ok (length_code, payload) →
  length payload = length_code * FW_CHUNK_LEN →
  index (fw_chunks length_code payload) 0 = Ok (bytes_of "F152607060") →
  re_search MEDIUM_FW_PATTERN (bytes_of "F152607060")
    = Some [bytes_of "F1526"; bytes_of "07"; bytes_of "0"; bytes_of "60"]
  ∧ get_platform_codes [fw] = Ok {[ bytes_of "F1526-07-0" := {[ bytes_of "60" ]} ]}.
Proof.
  intros Hparse Hlen Hchunk. split; [reflexivity|].
  apply blob_code_of_parse in Hparse as [Hparse Hpos].
  rewrite fw_chunks_first in Hchunk by done. injection Hchunk as Hchunk.
  rewrite get_platform_codes_spec, platform_codes_singleton. f_equal.
  unfold blob_code. rewrite Hparse, Hlen, Nat.eqb_refl, Hchunk.
  change (chunk_code (bytes_of "F152607060"))
    with (Some (bytes_of "F1526-07-0", bytes_of "60")).
  cbn. unfold codes_add. rewrite lookup_empty. cbn.
  by rewrite (left_id_L ∅ (∪)), insert_empty.
Qed.

Lemma medium_chunk_F152607060_witness :
  get_platform_codes [bytes_of "F152607060" ++ replicate 6 x00]
  = Ok {[ bytes_of "F1526-07-0" := {[ bytes_of "60" ]} ]}.
Proof.
  apply (medium_chunk_F152607060 _ 1 (bytes_of "F152607060" ++ replicate 6 x00));
    reflexivity.
Defined.

(** C6, as the code has it: a trimmed first chunk of exactly 8 bytes is
    extracted exactly when all 8 bytes are in [[A-Z0-9]], the leading byte
    included although it is not captured.  Then the platform code is
    platform, a dash, major version (no part number) and the sub-version is
    the last 3 bytes; otherwise the chunk adds nothing and nothing is
    raised. *)
Theorem short_chunk_extraction (codes : codes_t) (first_chunk : bytes) :
  length first_chunk = 8 →
  classify_first_chunk codes first_chunk
  = Ok (if forallb is_upper_alnum first_chunk
        then codes_add (slice 1 3 first_chunk ++ bytes_of "-" ++ slice 3 5 first_chunk)
                       (slice 5 8 first_chunk) codes
        else codes).
Proof.
  intros Hlen. rewrite classify_first_chunk_spec. f_equal.
  unfold chunk_code. rewrite Hlen. cbn [Nat.eqb].
  destruct (forallb is_upper_alnum first_chunk) eqn:Hall.
  - rewrite re_match_all.
    + do 9 (destruct first_chunk as [|? first_chunk]; try discriminate Hlen).
      reflexivity.
    + by rewrite Hlen.
    + rewrite take_ge; [done|]. by rewrite Hlen.
  - rewrite re_match_not_all; [done|].
    rewrite take_ge; [done|]. by rewrite Hlen.
Qed.

Lemma short_chunk_extraction_witness :
  classify_first_chunk ∅ (bytes_of "A0C01000")
  = Ok (codes_add (bytes_of "0C-01") (bytes_of "000") ∅).
Proof. apply (short_chunk_extraction ∅ (bytes_of "A0C01000")). reflexivity. Defined.

(** C6 as stated fails: the 8-byte chunk [-0701234] has platform [07], major
    version [01] and sub-version [234], all in [[A-Z0-9]], and is already
    trimmed, yet nothing is extracted from it, because its first byte is not
    in the class. *)
Lemma short_chunk_first_byte_checked :
  let first_chunk := bytes_of "-0701234" in
  length first_chunk = 8
  ∧ bytes_strip [x00; x20] first_chunk = first_chunk
  ∧ short_fields_valid first_chunk = true
  ∧ classify_first_chunk ∅ first_chunk = Ok ∅
  ∧ get_platform_codes [first_chunk ++ replicate 8 x00] = Ok ∅.
Proof. repeat split; by_evaluation. Qed.

(** C7: the chunk count is the first byte when that byte is 1, 2 or 3, with
    the rest of the blob as payload; otherwise it is 1 with the whole blob as
    payload.  When the payload is not exactly chunk count times 16 bytes
    long, the blob leaves the index as it was, and nothing is raised. *)
Theorem chunk_count_and_payload (fw : bytes) (codes : codes_t) :
  (∀ c rest, fw = c :: rest → (1 ≤ Byte.to_N c ≤ 3)%N →
     parse_length_code fw = Ok (Byte.to_nat c, rest))
  ∧ ((∀ c rest, fw = c :: rest → ¬ (1 ≤ Byte.to_N c ≤ 3)%N) →
     parse_length_code fw = Ok (1, fw))
  ∧ (∀ length_code payload,
       parse_length_code fw = Ok (length_code, payload) →
       length payload ≠ length_code * 16 →
       get_platform_codes_body codes fw = Ok codes).
Proof.
  split; [|split].
  - intros c rest -> [Hlo Hhi]. rewrite parse_length_code_spec. cbn.
    apply N.leb_le in Hlo, Hhi. by rewrite Hlo, Hhi.
  - intros Hno. rewrite parse_length_code_spec. destruct fw as [|c rest]; [done|].
    cbn. destruct (_ && _) eqn:Hc; [|done].
    apply andb_true_iff in Hc as [Hlo Hhi]. apply N.leb_le in Hlo, Hhi.
    by destruct (Hno c rest eq_refl).
  - intros n payload Hparse Hlen.
    apply blob_code_of_parse in Hparse as [Hparse _].
    rewrite get_platform_codes_body_spec. unfold blob_code. rewrite Hparse.
    destruct (Nat.eqb_spec (n * FW_CHUNK_LEN) (length payload)) as [Heq|]; [|done].
    unfold FW_CHUNK_LEN in Heq. lia.
Qed.

Lemma chunk_count_and_payload_witness :
  let fw := x02 :: bytes_of "30721100" ++ replicate 8 x00 in
  parse_length_code fw = Ok (2, bytes_of "30721100" ++ replicate 8 x00)
  ∧ get_platform_codes_body ∅ fw = Ok ∅
  ∧ parse_length_code (bytes_of "30721100") = Ok (1, bytes_of "30721100").
Proof.
  intros fw.
  destruct (chunk_count_and_payload fw ∅) as (Hcount & _ & Hskip).
  destruct (chunk_count_and_payload (bytes_of "30721100") ∅) as (_ & Hwhole & _).
  split; [|split].
  - apply (Hcount x02 (bytes_of "30721100" ++ replicate 8 x00) eq_refl).
    split; by apply N.leb_le.
  - apply (Hskip 2 (bytes_of "30721100" ++ replicate 8 x00) eq_refl). by cbn.
  - apply Hwhole. intros c rest [= <- _] [_ Hhi]. by apply N.leb_le in Hhi.
Defined.

(** C8: get_platform_codes returns an index for every list of byte strings
    and raises nothing; the chunk count is at least 1, so taking the first
    chunk cannot fail; and a blob whose trimmed first chunk has fewer than 8
    bytes adds nothing: alone it gives the empty index. *)
Theorem get_platform_codes_total (fw_versions : list bytes) (fw : bytes) (codes : codes_t) :
  (∃ result_codes, get_platform_codes fw_versions = Ok result_codes)
  ∧ (∃ length_code payload first_chunk,
       parse_length_code fw = Ok (length_code, payload)
       ∧ 1 ≤ length_code
       ∧ index (fw_chunks length_code payload) 0 = Ok first_chunk)
  ∧ (∀ length_code payload first_chunk,
       parse_length_code fw = Ok (length_code, payload) →
       index (fw_chunks length_code payload) 0 = Ok first_chunk →
       length first_chunk < 8 →
       get_platform_codes_body codes fw = Ok codes
       ∧ get_platform_codes [fw] = Ok ∅).
Proof.
  split; [|split].
  - eexists. apply get_platform_codes_spec.
  - pose proof (length_code_of_pos fw) as Hpos.
    rewrite parse_length_code_spec. destruct (length_code_of fw) as [n payload].
    exists n, payload. eexists. split; [done|]. split; [done|].
    by apply fw_chunks_first.
  - intros n payload first_chunk Hparse Hchunk Hshort.
    apply blob_code_of_parse in Hparse as [Hparse Hpos].
    rewrite fw_chunks_first in Hchunk by done. injection Hchunk as Hchunk.
    assert (blob_code fw = None) as Hnone.
    { unfold blob_code. rewrite Hparse.
      destruct (n * FW_CHUNK_LEN =? length payload)%nat; [|done].
      rewrite Hchunk. unfold chunk_code.
      destruct (Nat.eqb_spec (length first_chunk) 8); [lia|].
      destruct (Nat.eqb_spec (length first_chunk) 10); [lia|].
      destruct (Nat.eqb_spec (length first_chunk) 12); [lia|]. done. }
    rewrite get_platform_codes_body_spec, get_platform_codes_spec.
    rewrite platform_codes_singleton, Hnone. done.
Qed.

Lemma get_platform_codes_total_witness :
  let fw := bytes_of "F152607" ++ replicate 9 x00 in
  get_platform_codes_body ∅ fw = Ok ∅ ∧ get_platform_codes [fw] = Ok ∅.
Proof.
  intros fw.
  destruct (get_platform_codes_total [] fw ∅) as (_ & _ & Hshort).
  apply (Hshort 1 fw (bytes_of "F152607")); [reflexivity|reflexivity|].
  cbn. lia.
Defined.

(** Reordering keeps the index. *)
Lemma get_platform_codes_Permutation l1 l2 :
  l1 ≡ₚ l2 → get_platform_codes l1 = get_platform_codes l2.
Proof.
  intros Hperm. rewrite !get_platform_codes_spec. f_equal.
  apply platform_codes_ext. intros fw. by rewrite Hperm.
Qed.

(** Repeating an element keeps the index. *)
Lemma get_platform_codes_duplicate fw l :
  fw ∈ l → get_platform_codes (fw :: l) = get_platform_codes l.
Proof.
  intros Hin. rewrite !get_platform_codes_spec. f_equal.
  apply platform_codes_ext. intros fw'. rewrite elem_of_cons. naive_solver.
Qed.

(** C9: the index depends only on which blobs occur in the input, not on
    their order or on how often each occurs: two lists with the same
    elements (in particular a list and any permutation of it, or a list and
    the list with some elements repeated) give the same mapping from platform
    code to set of sub-versions. *)
Theorem get_platform_codes_same_elements (l1 l2 : list bytes) :
  (∀ fw, fw ∈ l1 ↔ fw ∈ l2) →
  ∃ codes, get_platform_codes l1 = Ok codes ∧ get_platform_codes l2 = Ok codes.
Proof.
  intros Hsame. exists (platform_codes l1).
  rewrite !get_platform_codes_spec. split; [done|].
  f_equal. symmetry. by apply platform_codes_ext.
Qed.

Lemma get_platform_codes_same_elements_witness :
  let a := bytes_of "8646F0701100" ++ replicate 4 x00 in
  let b := bytes_of "8646F0703000" ++ replicate 4 x00 in
  ∃ codes, get_platform_codes [a; b] = Ok codes
           ∧ get_platform_codes [b; a; b; b] = Ok codes.
Proof.
  intros a b. apply (get_platform_codes_same_elements [a; b] [b; a; b; b]).
  intros fw. rewrite !elem_of_cons, elem_of_nil. tauto.
Defined.

(** ** Properties of match_fw_to_car_fuzzy *)

Lemma any_code_expected_empty (expected : codes_t) :
  any_code_expected expected ∅ = false.
Proof. unfold any_code_expected. by rewrite map_to_list_empty. Qed.

Lemma ecu_passes_identical (live : live_t) (ecu : ecu_id) (expected_versions : list bytes) :
  default ∅ (live !! ecu_tail ecu) = list_to_set expected_versions →
  get_platform_codes expected_versions ≠ Ok ∅ →
  ecu_passes live ecu expected_versions.
Proof.
  intros Hsame Hne. unfold ecu_passes. rewrite Hsame.
  rewrite (platform_codes_ext (elements (list_to_set expected_versions)) expected_versions).
  - rewrite get_platform_codes_spec in Hne.
    assert (platform_codes expected_versions ≠ ∅) as Hne' by congruence.
    apply map_choose in Hne' as (k & S & Hk).
    apply any_code_expected_true. exists k. by split; exists S.
  - intros fw. by rewrite elem_of_elements, elem_of_list_to_set.
Qed.

Lemma get_platform_codes_nonempty (fw_versions : list bytes) (fw key sub_version : bytes) :
  fw ∈ fw_versions → blob_code fw = Some (key, sub_version) →
  get_platform_codes fw_versions ≠ Ok ∅.
Proof.
  intros Hin Hcode. rewrite get_platform_codes_spec. intros [= Hempty].
  assert (is_Some (platform_codes fw_versions !! key)) as [S HS].
  { apply platform_codes_is_Some. eauto. }
  by rewrite Hempty, lookup_empty in HS.
Qed.

(** C1, as the code has it: when the observed fingerprint is identical to a
    candidate's catalog entry on all its required ECUs, and the catalog
    blobs of each required ECU yield at least one platform code, the matcher
    returns a set containing that candidate, unless the candidate is
    excluded. *)
Theorem identical_fingerprint_matches (FW : gmap string fingerprint) (EXCL : gset string)
    (live : live_t) (candidate : string) (fws : fingerprint) :
  FW !! candidate = Some fws →
  identical_on_required live fws →
  (∀ ecu expected_versions,
     (ecu, expected_versions) ∈ fws →
     ecu_kind ecu ∈ PLATFORM_CODE_ECUS →
     get_platform_codes expected_versions ≠ Ok ∅) →
  candidate ∉ EXCL →
  ∃ s, match_fw_to_car_fuzzy FW EXCL live = Ok s ∧ CAR.str candidate ∈ s.
Proof.
  intros Hcat Hsame Hparse Hex.
  destruct (match_fw_to_car_fuzzy_spec FW EXCL live) as (s & Hs & Hmem).
  exists s. split; [done|]. apply Hmem. split; [|done].
  exists fws. split; [done|]. eexists. split.
  - apply check_ecus_all. intros ecu blobs Hin Hk.
    apply ecu_passes_identical; eauto.
  - set_solver.
Qed.

Lemma identical_fingerprint_matches_witness :
  let live : live_t :=
    {[ (0x7b0, None) := {[ bytes_of "F152607060" ++ replicate 6 x00 ]};
       (0x7a1, None) := {[ bytes_of "8965B41051" ++ replicate 6 x00 ]};
       (0x750, Some 0x6d) := {[ bytes_of "8646F0701100" ++ replicate 4 x00;
                                bytes_of "8646F0703000" ++ replicate 4 x00 ]} ]}%Z in
  ∃ s, match_fw_to_car_fuzzy FW_VERSIONS ∅ live = Ok s ∧ CAR.RSG_OFFROAD ∈ s.
Proof.
  intros live.
  eapply (identical_fingerprint_matches FW_VERSIONS ∅ live CAR.RSG_OFFROAD).
  - apply lookup_singleton_eq.
  - intros ecu blobs Hin Hk.
    repeat (apply elem_of_cons in Hin as [Hin|Hin];
            [injection Hin as -> ->; first [not_required Hk | by_evaluation]|]).
    by apply elem_of_nil in Hin.
  - intros ecu blobs Hin Hk.
    repeat (apply elem_of_cons in Hin as [Hin|Hin];
            [injection Hin as -> ->;
             first [not_required Hk
                   | eapply get_platform_codes_nonempty;
                     [apply list_elem_of_here | reflexivity]]|]).
    by apply elem_of_nil in Hin.
  - apply not_elem_of_empty.
Defined.

(** C1 as stated fails: a catalog whose only candidate has, for its eps ECU,
    a 10-byte blob (not 16, so it yields no platform code) and an observed
    fingerprint holding that same blob at that address.  The fingerprints
    are identical on the required ECU and nothing is excluded, yet the
    matcher returns the empty set. *)
Lemma identical_fingerprint_without_codes_rejected :
  ¬ (∀ (FW : gmap string fingerprint) (EXCL : gset string) (live : live_t)
       (candidate : string) (fws : fingerprint),
       FW !! candidate = Some fws →
       identical_on_required live fws →
       candidate ∉ EXCL →
       ∃ s, match_fw_to_car_fuzzy FW EXCL live = Ok s ∧ CAR.str candidate ∈ s).
Proof.
  intros Hclaim.
  pose (fws := [((Ecu.eps, 0x7a1%Z, None), [bytes_of "8965B41051"])] : fingerprint).
  pose (live := {[ (0x7a1%Z, None) := {[ bytes_of "8965B41051" ]} ]} : live_t).
  destruct (Hclaim {[ CAR.RSG_OFFROAD := fws ]} ∅ live CAR.RSG_OFFROAD fws)
    as (s & Hs & Hin).
  - apply lookup_singleton_eq.
  - intros ecu blobs Hin Hk. apply list_elem_of_singleton in Hin.
    injection Hin as -> ->. by_evaluation.
  - apply not_elem_of_empty.
  - assert (match_fw_to_car_fuzzy {[ CAR.RSG_OFFROAD := fws ]} ∅ live = Ok ∅) as Hrun
      by by_evaluation.
    rewrite Hrun in Hs. injection Hs as <-. by apply not_elem_of_empty in Hin.
Qed.

(** C2: whatever the catalog, the exclusion set and the observed
    fingerprint, the matcher returns a set, and no member of the exclusion
    set is in it. *)
Theorem excluded_never_returned (FW : gmap string fingerprint) (EXCL : gset string)
    (live : live_t) :
  ∃ s, match_fw_to_car_fuzzy FW EXCL live = Ok s ∧ s ∩ EXCL = ∅.
Proof.
  destruct (match_fw_to_car_fuzzy_spec FW EXCL live) as (s & Hs & Hmem).
  exists s. split; [done|]. apply set_eq. intros c.
  rewrite elem_of_intersection, Hmem. split; [|by intros ?%not_elem_of_empty].
  by intros [[_ Hex] Hin].
Qed.

(** C3: when the observed fingerprint has no blob at the address of a
    required ECU of a candidate (the address is missing or holds the empty
    set), the matcher returns a set that does not contain the candidate. *)
Theorem required_ecu_without_blobs_rejects (FW : gmap string fingerprint)
    (EXCL : gset string) (live : live_t) (candidate : string) (fws : fingerprint)
    (ecu : ecu_id) (expected_versions : list bytes) :
  FW !! candidate = Some fws →
  (ecu, expected_versions) ∈ fws →
  ecu_kind ecu ∈ PLATFORM_CODE_ECUS →
  live !! ecu_tail ecu = None ∨ live !! ecu_tail ecu = Some ∅ →
  ∃ s, match_fw_to_car_fuzzy FW EXCL live = Ok s ∧ CAR.str candidate ∉ s.
Proof.
  intros Hcat Hin Hk Habsent.
  assert (default ∅ (live !! ecu_tail ecu) = ∅) as Hnone.
  { by destruct Habsent as [-> | ->]. }
  destruct (match_fw_to_car_fuzzy_spec FW EXCL live) as (s & Hs & Hmem).
  exists s. split; [done|]. unfold CAR.str. rewrite Hmem.
  intros [(fws' & Hcat' & found & Hrun & Hsub) _].
  rewrite Hcat in Hcat'. injection Hcat' as <-.
  assert (ecu_tail ecu ∈ found) as Hfound.
  { apply Hsub, valid_expected_ecus_elem. by exists ecu, expected_versions. }
  destruct (check_ecus_found live fws ∅) as (found' & Hrun' & Hwhy).
  rewrite Hrun in Hrun'. injection Hrun' as <-.
  destruct (Hwhy _ Hfound) as [Hempty|(ecu' & blobs' & _ & _ & Haddr & Hpass)].
  - by apply not_elem_of_empty in Hempty.
  - unfold ecu_passes in Hpass.
    rewrite Haddr, Hnone, elements_empty in Hpass.
    change (platform_codes []) with (∅ : codes_t) in Hpass.
    by rewrite any_code_expected_empty in Hpass.
Qed.

Lemma required_ecu_without_blobs_rejects_witness :
  let live : live_t :=
    {[ (0x7b0, None) := {[ bytes_of "F152607060" ++ replicate 6 x00 ]};
       (0x7a1, None) := ∅;
       (0x750, Some 0x6d) := {[ bytes_of "8646F0701100" ++ replicate 4 x00 ]} ]}%Z in
  ∃ s, match_fw_to_car_fuzzy FW_VERSIONS ∅ live = Ok s ∧ CAR.RSG_OFFROAD ∉ s.
Proof.
  intros live.
  eapply (required_ecu_without_blobs_rejects FW_VERSIONS ∅ live CAR.RSG_OFFROAD _
            (Ecu.eps, 0x7a1%Z, None)).
  - apply lookup_singleton_eq.
  - do 2 apply list_elem_of_further. apply list_elem_of_here.
  - do 2 apply list_elem_of_further. apply list_elem_of_here.
  - right. by_evaluation.
Defined.

(** ** The steering command *)

(** C10: [create_toyota_steer_command] reads [values["TOYOTA_COUNTER"]] from
    a dict that holds only [STEER_REQUEST], [STEER_TORQUE_CMD] and
    [SET_ME_1], so every call raises [KeyError] for that key, whatever the
    packer and the arguments; and [CarController.update], which makes that
    call on every path, raises on every frame instead of returning. *)
Theorem steer_command_always_raises `{HE : Helpers} :
  (∀ (packer : CANPacker) (steer : Z) (steer_req : bool),
     create_toyota_steer_command packer steer steer_req
     = Raise (KeyError "TOYOTA_COUNTER"))
  ∧ (∀ (self : CarController) (CC : CarControl) (CS : CarState) (now_nanos : Z),
       ∃ e, update self CC CS now_nanos = Raise e).
Proof.
  assert (∀ (packer : CANPacker) (steer : Z) (steer_req : bool),
            create_toyota_steer_command packer steer steer_req
            = Raise (KeyError "TOYOTA_COUNTER")) as Hcmd.
  { intros packer steer steer_req. unfold create_toyota_steer_command.
    set (values := ({[ "STEER_REQUEST" := VBool steer_req;
                       "STEER_TORQUE_CMD" := VInt steer;
                       "SET_ME_1" := VInt 1 ]} : gmap string value)).
    assert (getitem values "STEER_REQUEST" = Ok (VBool steer_req)) as ->.
    { unfold getitem, values. by rewrite lookup_insert_eq. }
    assert (getitem values "TOYOTA_COUNTER" = Raise (KeyError "TOYOTA_COUNTER")) as ->.
    { unfold getitem, values.
      rewrite (lookup_insert_ne _ "STEER_REQUEST" "TOYOTA_COUNTER") by done.
      rewrite (lookup_insert_ne _ "STEER_TORQUE_CMD" "TOYOTA_COUNTER") by done.
      by rewrite lookup_singleton_ne. }
    done. }
  split; [done|].
  intros self CC CS now_nanos. unfold update.
  destruct (apply_meas_steer_torque_limits _ _ _ _) as [apply_steer|e]; cbn; [|eauto].
  destruct (common_fault_avoidance _ _ _ _) as [[counter req]|e]; cbn; [|eauto].
  destruct (steerControlType (self_CP self)); cbn.
  - rewrite Hcmd. cbn. eauto.
  - destruct (self_frame self `mod` 2 =? 0)%Z; cbn.
    + destruct (apply_std_steer_angle_limits _ _ _ _) as [apply_angle|e]; cbn; [|eauto].
      destruct (clip _ _ _) as [last_angle|e]; cbn; [|eauto].
      rewrite Hcmd. cbn. eauto.
    + rewrite Hcmd. cbn. eauto.
Qed.

(** The first frame of a controller over the integer instance, with lateral
    control active: the frame raises [KeyError] for [TOYOTA_COUNTER]. *)
Example first_frame_raises :
  let CP := {| steerControlType := torque; enableDsu := false;
               carFingerprint := CAR.RSG_OFFROAD |} in
  let params := {| STEER_DELTA_UP := 10; STEER_DELTA_DOWN := 25 |} in
  let self := @Build_CarController integer_externals CP params 0 0 0%Z 0 tt 0%Z 0%Z in
  let actuators := @Build_Actuators integer_externals 1%Z 0 0%Z 0%Z 0%Z 0%Z tt in
  let CC := @Build_CarControl integer_externals true true actuators false in
  let CS := @Build_CarState integer_externals 0%Z 0%Z 0%Z 0%Z 0%Z 0%Z in
  update (HE := integer_helpers) self CC CS 0 = Raise (KeyError "TOYOTA_COUNTER").
Proof. reflexivity. Qed.

(** * Further properties of get_platform_codes *)

Lemma codes_add_empty (key sub_version : bytes) :
  codes_add key sub_version ∅ = {[ key := {[ sub_version ]} ]}.
Proof.
  unfold codes_add. rewrite lookup_empty. cbn.
  by rewrite (left_id_L ∅ (∪)), insert_empty.
Qed.

Lemma blob_code_alone (fw key sub_version : bytes) :
  blob_code fw = Some (key, sub_version)
  ↔ get_platform_codes [fw] = Ok {[ key := {[ sub_version ]} ]}.
Proof.
  rewrite get_platform_codes_spec, platform_codes_singleton. split.
  - intros ->. cbn. by rewrite codes_add_empty.
  - intros [= Heq]. destruct (blob_code fw) as [[k s]|]; cbn in Heq.
    + rewrite codes_add_empty in Heq.
      assert (({[k := {[s]}]} : codes_t) !! key = Some {[sub_version]}) as Hk.
      { by rewrite Heq, lookup_singleton_eq. }
      apply lookup_singleton_Some in Hk as [-> Hs].
      assert (sub_version ∈ ({[s]} : gset bytes)) as Hin by (rewrite Hs; set_solver).
      apply elem_of_singleton in Hin as ->. done.
    + exfalso. assert ((∅ : codes_t) !! key = Some {[sub_version]}) as Hk.
      { by rewrite Heq, lookup_singleton_eq. }
      by rewrite lookup_empty in Hk.
Qed.

Lemma chunk_code_exact (pat : list field) (first_chunk : bytes) :
  length first_chunk = total_width pat →
  re_match pat first_chunk
  = if forallb is_upper_alnum first_chunk then Some (split_groups pat first_chunk) else None.
Proof.
  intros Hlen. destruct (forallb is_upper_alnum first_chunk) eqn:Hall.
  - apply re_match_all; [lia|]. rewrite take_ge by lia. done.
  - apply re_match_not_all. rewrite take_ge by lia. done.
Qed.

(** X1: a trimmed first chunk of exactly 10 bytes is extracted exactly when
    all 10 bytes are in [[A-Z0-9]]; the platform code is then part (5 bytes),
    platform (2) and major version (1) joined by dashes, and the sub-version
    is the last 2 bytes.  Otherwise the index is unchanged. *)
Theorem medium_chunk_extraction (codes : codes_t) (first_chunk : bytes) :
  length first_chunk = 10 →
  classify_first_chunk codes first_chunk
  = Ok (if forallb is_upper_alnum first_chunk
        then codes_add (slice 0 5 first_chunk ++ bytes_of "-" ++ slice 5 7 first_chunk
                          ++ bytes_of "-" ++ slice 7 8 first_chunk)
                       (slice 8 10 first_chunk) codes
        else codes).
Proof.
  intros Hlen. rewrite classify_first_chunk_spec. f_equal.
  unfold chunk_code. rewrite Hlen. cbn [Nat.eqb].
  rewrite chunk_code_exact by done.
  destruct (forallb is_upper_alnum first_chunk); [|done].
  do 11 (destruct first_chunk as [|? first_chunk]; try discriminate Hlen).
  reflexivity.
Qed.

Lemma medium_chunk_extraction_witness :
  classify_first_chunk ∅ (bytes_of "8965B41051")
  = Ok (codes_add (bytes_of "8965B-41-0") (bytes_of "51") ∅).
Proof. apply (medium_chunk_extraction ∅ (bytes_of "8965B41051")). reflexivity. Defined.

(** X2: a trimmed first chunk of exactly 12 bytes is extracted exactly when
    all 12 bytes are in [[A-Z0-9]]; the platform code is then part (5 bytes),
    platform (2) and major version (2) joined by dashes, and the sub-version
    is the last 3 bytes.  Otherwise the index is unchanged. *)
Theorem long_chunk_extraction (codes : codes_t) (first_chunk : bytes) :
  length first_chunk = 12 →
  classify_first_chunk codes first_chunk
  = Ok (if forallb is_upper_alnum first_chunk
        then codes_add (slice 0 5 first_chunk ++ bytes_of "-" ++ slice 5 7 first_chunk
                          ++ bytes_of "-" ++ slice 7 9 first_chunk)
                       (slice 9 12 first_chunk) codes
        else codes).
Proof.
  intros Hlen. rewrite classify_first_chunk_spec. f_equal.
  unfold chunk_code. rewrite Hlen. cbn [Nat.eqb].
  rewrite chunk_code_exact by done.
  destruct (forallb is_upper_alnum first_chunk); [|done].
  do 13 (destruct first_chunk as [|? first_chunk]; try discriminate Hlen).
  reflexivity.
Qed.

Lemma long_chunk_extraction_witness :
  classify_first_chunk ∅ (bytes_of "8646F0701100")
  = Ok (codes_add (bytes_of "8646F-07-01") (bytes_of "100") ∅).
Proof. apply (long_chunk_extraction ∅ (bytes_of "8646F0701100")). reflexivity. Defined.

(** X3: whatever the blob, when its trimmed first chunk is not 8, 10 or 12
    bytes long the blob leaves the index unchanged (9 or 11 significant
    bytes, or an unpadded 16-byte identifier, are not read). *)
Theorem other_chunk_lengths_ignored (fw : bytes) (codes : codes_t)
    (length_code : nat) (payload first_chunk : bytes) :
  parse_length_code fw = Ok (length_code, payload) →
  index (fw_chunks length_code payload) 0 = Ok first_chunk →
  length first_chunk ≠ 8 → length first_chunk ≠ 10 → length first_chunk ≠ 12 →
  get_platform_codes_body codes fw = Ok codes.
Proof.
  intros Hparse Hchunk H8 H10 H12.
  apply blob_code_of_parse in Hparse as [Hparse Hpos].
  rewrite fw_chunks_first in Hchunk by done. injection Hchunk as Hchunk.
  rewrite get_platform_codes_body_spec. unfold blob_code. rewrite Hparse.
  destruct (length_code * FW_CHUNK_LEN =? length payload)%nat; [|done].
  rewrite Hchunk. unfold chunk_code.
  destruct (Nat.eqb_spec (length first_chunk) 8); [done|].
  destruct (Nat.eqb_spec (length first_chunk) 10); [done|].
  destruct (Nat.eqb_spec (length first_chunk) 12); [done|]. done.
Qed.

Lemma other_chunk_lengths_ignored_witness :
  get_platform_codes_body ∅ (bytes_of "8965B410512" ++ replicate 5 x00) = Ok ∅.
Proof.
  apply (other_chunk_lengths_ignored _ ∅ 1 (bytes_of "8965B410512" ++ replicate 5 x00)
           (bytes_of "8965B410512")); [reflexivity|reflexivity|cbn; lia..].
Defined.

(** X4: a blob can add a platform code only when it is 16 bytes long and does
    not start with a byte 1, 2 or 3, or when it starts with such a byte [n]
    and is [1 + 16 n] bytes long.  In particular a 16-byte identifier whose
    first byte is 1, 2 or 3 is never read. *)
Theorem contributing_blob_length (fw : bytes) :
  get_platform_codes [fw] ≠ Ok ∅ →
  (length fw = 16 ∧ ∀ c rest, fw = c :: rest → ¬ (1 ≤ Byte.to_N c ≤ 3)%N)
  ∨ (∃ c rest, fw = c :: rest ∧ (1 ≤ Byte.to_N c ≤ 3)%N
               ∧ length fw = 1 + 16 * Byte.to_nat c).
Proof.
  rewrite get_platform_codes_spec, platform_codes_singleton. intros Hne.
  assert (blob_code fw ≠ None) as Hcode by (by intros Hnone; rewrite Hnone in Hne).
  unfold blob_code, length_code_of in Hcode.
  destruct fw as [|c rest]; [done|].
  destruct (_ && _) eqn:Hc.
  - right. exists c, rest. apply andb_true_iff in Hc as [Hlo Hhi].
    apply N.leb_le in Hlo, Hhi. split; [done|]. split; [done|].
    destruct (Nat.eqb_spec (Byte.to_nat c * FW_CHUNK_LEN) (length rest)) as [Hlen|]; [|done].
    cbn [length]. unfold FW_CHUNK_LEN in Hlen. lia.
  - left. destruct (Nat.eqb_spec (1 * FW_CHUNK_LEN) (length (c :: rest))) as [Hlen|]; [|done].
    split; [by rewrite <-Hlen|].
    intros c' rest' [= <- <-] [Hlo Hhi]. apply N.leb_le in Hlo, Hhi.
    by rewrite Hlo, Hhi in Hc.
Qed.

Lemma contributing_blob_length_witness :
  let fw := x01 :: bytes_of "8965B41051" ++ replicate 6 x00 in
  (length fw = 16 ∧ ∀ c rest, fw = c :: rest → ¬ (1 ≤ Byte.to_N c ≤ 3)%N)
  ∨ (∃ c rest, fw = c :: rest ∧ (1 ≤ Byte.to_N c ≤ 3)%N
               ∧ length fw = 1 + 16 * Byte.to_nat c).
Proof.
  intros fw. apply contributing_blob_length.
  eapply get_platform_codes_nonempty; [apply list_elem_of_here|reflexivity].
Defined.

(** X5: one blob adds at most one platform code with one sub-version: alone
    it gives the empty index or an index with a single key and a single
    sub-version. *)
Theorem blob_adds_at_most_one_code (fw : bytes) :
  get_platform_codes [fw] = Ok ∅
  ∨ ∃ key sub_version, get_platform_codes [fw] = Ok {[ key := {[ sub_version ]} ]}.
Proof.
  rewrite get_platform_codes_spec, platform_codes_singleton.
  destruct (blob_code fw) as [[key sub_version]|]; cbn; [|by left].
  right. exists key, sub_version. by rewrite codes_add_empty.
Qed.

(** X6: blobs are read independently of one another: a sub-version is listed
    under a platform code in the index of a list exactly when some blob of
    the list, taken alone, gives that code with that sub-version. *)
Theorem codes_come_from_single_blobs (fw_versions : list bytes) :
  ∃ codes, get_platform_codes fw_versions = Ok codes
    ∧ ∀ key sub_version,
        sub_version ∈ default ∅ (codes !! key)
        ↔ ∃ fw, fw ∈ fw_versions
                ∧ get_platform_codes [fw] = Ok {[ key := {[ sub_version ]} ]}.
Proof.
  exists (platform_codes fw_versions). split; [apply get_platform_codes_spec|].
  intros key sub_version. rewrite platform_codes_lookup.
  split; intros (fw & Hin & Hfw); exists fw; (split; [done|]); by apply blob_code_alone.
Qed.

(** X7: no platform code of the index has an empty set of sub-versions. *)
Theorem no_code_without_sub_version (fw_versions : list bytes) :
  ∃ codes, get_platform_codes fw_versions = Ok codes
    ∧ map_Forall (λ _ (sub_versions : gset bytes), sub_versions ≠ ∅) codes.
Proof.
  exists (platform_codes fw_versions). split; [apply get_platform_codes_spec|].
  intros key S. apply platform_codes_nonempty.
Qed.

(** X8: the index of a concatenation is the union of the two indexes, key by
    key: the sub-versions of a code are those of either part. *)
Theorem codes_of_concatenation (l1 l2 : list bytes) :
  ∃ codes1 codes2 : codes_t,
    get_platform_codes l1 = Ok codes1
    ∧ get_platform_codes l2 = Ok codes2
    ∧ get_platform_codes (l1 ++ l2)
      = Ok (union_with (λ S1 S2, Some (S1 ∪ S2)) codes1 codes2).
Proof.
  exists (platform_codes l1), (platform_codes l2).
  rewrite !get_platform_codes_spec. split; [done|]. split; [done|]. f_equal.
  apply map_eq. intros k. rewrite lookup_union_with.
  assert (∀ s, s ∈ default ∅ (platform_codes (l1 ++ l2) !! k)
             ↔ s ∈ default ∅ (platform_codes l1 !! k)
               ∨ s ∈ default ∅ (platform_codes l2 !! k)) as Hs.
  { intros s. rewrite !platform_codes_lookup. setoid_rewrite elem_of_app. naive_solver. }
  pose proof (platform_codes_nonempty (l1 ++ l2) k) as Hne.
  destruct (platform_codes (l1 ++ l2) !! k) as [S|] eqn:HS,
           (platform_codes l1 !! k) as [S1|] eqn:H1,
           (platform_codes l2 !! k) as [S2|] eqn:H2; cbn in *.
  - f_equal. apply set_eq. intros s. rewrite Hs. set_solver.
  - f_equal. apply set_eq. intros s. rewrite Hs. set_solver.
  - f_equal. apply set_eq. intros s. rewrite Hs. set_solver.
  - exfalso. apply (Hne S eq_refl). apply set_eq. intros s. rewrite Hs. set_solver.
  - apply platform_codes_nonempty in H1. exfalso. apply H1.
    apply set_eq. intros s. specialize (Hs s). set_solver.
  - apply platform_codes_nonempty in H1. exfalso. apply H1.
    apply set_eq. intros s. specialize (Hs s). set_solver.
  - apply platform_codes_nonempty in H2. exfalso. apply H2.
    apply set_eq. intros s. specialize (Hs s). set_solver.
  - done.
Qed.

Lemma alnum_part (part whole : bytes) :
  forallb is_upper_alnum whole = true → part ⊆ whole →
  forallb is_upper_alnum part = true.
Proof.
  intros Hall Hsub. apply forallb_forall. intros c Hc.
  apply (proj1 (forallb_forall _ _) Hall). by apply list_elem_of_In, Hsub, list_elem_of_In.
Qed.

Lemma chunk_code_format (first_chunk key sub_version : bytes) :
  chunk_code first_chunk = Some (key, sub_version) → code_format key sub_version.
Proof.
  unfold chunk_code, code_format, code_shapes.
  destruct (Nat.eqb_spec (length first_chunk) 8) as [Hlen|_];
    [|destruct (Nat.eqb_spec (length first_chunk) 10) as [Hlen|_];
      [|destruct (Nat.eqb_spec (length first_chunk) 12) as [Hlen|_]; [|done]]];
    rewrite chunk_code_exact by done;
    destruct (forallb is_upper_alnum first_chunk) eqn:Hall; try done.
  - destruct first_chunk as [|c0 [|c1 [|c2 [|c3 [|c4 [|c5 [|c6 [|c7 [|]]]]]]]]]; try discriminate Hlen.
    intros [= <- <-]. exists [[c1; c2]; [c3; c4]]. split; [reflexivity|].
    split; [|split].
    + repeat constructor; apply (alnum_part _ _ Hall); set_solver.
    + apply (alnum_part _ _ Hall); set_solver.
    + apply list_elem_of_here.
  - destruct first_chunk as [|c0 [|c1 [|c2 [|c3 [|c4 [|c5 [|c6 [|c7 [|c8 [|c9 [|]]]]]]]]]]]; try discriminate Hlen.
    intros [= <- <-]. exists [[c0; c1; c2; c3; c4]; [c5; c6]; [c7]]. split; [reflexivity|].
    split; [|split].
    + repeat constructor; apply (alnum_part _ _ Hall); set_solver.
    + apply (alnum_part _ _ Hall); set_solver.
    + apply list_elem_of_further, list_elem_of_here.
  - destruct first_chunk as [|c0 [|c1 [|c2 [|c3 [|c4 [|c5 [|c6 [|c7 [|c8 [|c9 [|c10 [|c11 [|]]]]]]]]]]]]]; try discriminate Hlen.
    intros [= <- <-]. exists [[c0; c1; c2; c3; c4]; [c5; c6]; [c7; c8]]. split; [reflexivity|].
    split; [|split].
    + repeat constructor; apply (alnum_part _ _ Hall); set_solver.
    + apply (alnum_part _ _ Hall); set_solver.
    + do 2 apply list_elem_of_further. apply list_elem_of_here.
Qed.

Lemma blob_code_format (fw key sub_version : bytes) :
  blob_code fw = Some (key, sub_version) → code_format key sub_version.
Proof.
  unfold blob_code. destruct (length_code_of fw) as [n payload].
  destruct (_ =? _)%nat; [|done]. apply chunk_code_format.
Qed.

(** X9: every entry of the index is well formed: the platform code is two
    parts of 2 and 2 bytes, or three parts of 5, 2 and 1 bytes, or of 5, 2
    and 2 bytes, joined by dashes; its sub-versions are 3, 2 and 3 bytes long
    respectively; and every part and sub-version consists of characters in
    [[A-Z0-9]] only. *)
Theorem index_entries_well_formed (fw_versions : list bytes) :
  ∃ codes, get_platform_codes fw_versions = Ok codes
    ∧ map_Forall (λ key (sub_versions : gset bytes),
                    set_Forall (code_format key) sub_versions) codes.
Proof.
  exists (platform_codes fw_versions). split; [apply get_platform_codes_spec|].
  intros key S HS s Hs.
  assert (s ∈ default ∅ (platform_codes fw_versions !! key)) as Hin by (by rewrite HS).
  apply platform_codes_lookup in Hin as (fw & _ & Hfw).
  by apply blob_code_format in Hfw.
Qed.

(** X10: only the trimmed first chunk of a blob matters: two blobs of valid
    length with the same trimmed first chunk, whatever their chunk counts,
    padding and later chunks, can replace one another anywhere in the input
    without changing the index. *)
Theorem same_first_chunk_same_index (before after : list bytes) (fw1 fw2 : bytes)
    (length_code1 length_code2 : nat) (payload1 payload2 : bytes) :
  parse_length_code fw1 = Ok (length_code1, payload1) →
  parse_length_code fw2 = Ok (length_code2, payload2) →
  length payload1 = length_code1 * FW_CHUNK_LEN →
  length payload2 = length_code2 * FW_CHUNK_LEN →
  index (fw_chunks length_code1 payload1) 0 = index (fw_chunks length_code2 payload2) 0 →
  get_platform_codes (before ++ fw1 :: after)
  = get_platform_codes (before ++ fw2 :: after).
Proof.
  intros H1 H2 Hl1 Hl2 Hfirst.
  apply blob_code_of_parse in H1 as [H1 Hp1], H2 as [H2 Hp2].
  rewrite !fw_chunks_first in Hfirst by done. injection Hfirst as Hfirst.
  rewrite !get_platform_codes_spec, !platform_codes_middle. do 3 f_equal.
  unfold blob_code. rewrite H1, H2, Hl1, Hl2, !Nat.eqb_refl. by rewrite Hfirst.
Qed.

Lemma same_first_chunk_same_index_witness :
  let kwp := bytes_of "F152607060" ++ replicate 6 x00 in
  let uds := x02 :: bytes_of "  F152607060  " ++ replicate 2 x00
                 ++ bytes_of "A0C01000" ++ replicate 8 x00 in
  get_platform_codes [kwp] = get_platform_codes [uds].
Proof.
  intros kwp uds.
  apply (same_first_chunk_same_index [] [] kwp uds 1 2 kwp
           (bytes_of "  F152607060  " ++ replicate 2 x00
              ++ bytes_of "A0C01000" ++ replicate 8 x00)); reflexivity.
Defined.

(** * Further properties of match_fw_to_car_fuzzy *)

Lemma ecu_passes_shares (live : live_t) (ecu : ecu_id) (expected_versions : list bytes) :
  ecu_passes live ecu expected_versions ↔ shares_platform_code live ecu expected_versions.
Proof.
  unfold ecu_passes, shares_platform_code. rewrite any_code_expected_true. split.
  - intros (key & Hfound & Hexp). eexists _, _, key.
    rewrite !get_platform_codes_spec. done.
  - intros (expected & found & key & He & Hf & Hexp & Hfound).
    rewrite get_platform_codes_spec in He, Hf.
    injection He as <-. injection Hf as <-. by exists key.
Qed.

Lemma check_ecus_collected (live : live_t) (fws : fingerprint)
    (valid_found_ecus : gset ecu_addr) :
  check_ecus live fws valid_found_ecus = Ok (valid_found_ecus ∪ collected_ecus live fws).
Proof.
  revert valid_found_ecus. induction fws as [|[ecu blobs] fws IH]; intros vf; cbn.
  - f_equal. set_solver.
  - case_bool_decide as Hk; cbn; [|apply IH].
    rewrite !get_platform_codes_spec. cbn.
    destruct (any_code_expected _ _); cbn.
    + rewrite IH. f_equal. set_solver.
    + f_equal. set_solver.
Qed.

Lemma accepted_collected (live : live_t) (fws : fingerprint) :
  accepted live fws ↔ valid_expected_ecus fws ⊆ collected_ecus live fws.
Proof.
  unfold accepted. rewrite check_ecus_collected. split.
  - intros (found & [= <-] & Hsub). set_solver.
  - intros Hsub. eexists. split; [done|]. set_solver.
Qed.

Lemma collected_ecus_passed (live : live_t) (fws : fingerprint) (a : ecu_addr) :
  a ∈ collected_ecus live fws →
  ∃ ecu blobs, (ecu, blobs) ∈ fws ∧ ecu_kind ecu ∈ PLATFORM_CODE_ECUS
               ∧ ecu_tail ecu = a ∧ ecu_passes live ecu blobs.
Proof.
  induction fws as [|[ecu blobs] fws IH]; cbn; [set_solver|].
  case_bool_decide as Hk.
  - destruct (any_code_expected _ _) eqn:Hany; [|set_solver].
    rewrite elem_of_union, elem_of_singleton. intros [->|Hin].
    + exists ecu, blobs. split; [apply list_elem_of_here|done].
    + destruct (IH Hin) as (ecu' & blobs' & ? & ? & ? & ?).
      exists ecu', blobs'. split; [by apply list_elem_of_further|done].
  - intros Hin. destruct (IH Hin) as (ecu' & blobs' & ? & ? & ? & ?).
    exists ecu', blobs'. split; [by apply list_elem_of_further|done].
Qed.

Lemma collected_ecus_all (live : live_t) (fws : fingerprint) :
  (∀ ecu blobs, (ecu, blobs) ∈ fws → ecu_kind ecu ∈ PLATFORM_CODE_ECUS →
                ecu_passes live ecu blobs) →
  collected_ecus live fws = valid_expected_ecus fws.
Proof.
  induction fws as [|[ecu blobs] fws IH]; intros Hpass; [done|].
  rewrite valid_expected_ecus_cons. cbn.
  rewrite IH by (intros ecu' blobs' Hin; apply Hpass; by apply list_elem_of_further).
  case_bool_decide as Hk; [|set_solver].
  by rewrite (Hpass ecu blobs (list_elem_of_here _ _) Hk).
Qed.

Lemma required_entry_unique (fws : fingerprint) (e1 e2 : ecu_id * list bytes) :
  NoDup (ecu_tail <$> filter (λ ecu, ecu_kind ecu ∈ PLATFORM_CODE_ECUS) fws.*1) →
  e1 ∈ fws → e2 ∈ fws → required e1 → required e2 →
  ecu_tail e1.1 = ecu_tail e2.1 → e1 = e2.
Proof.
  intros Hnd H1 H2 Hr1 Hr2 Htail.
  assert (∀ e, e ∈ fws → required e →
               ecu_tail e.1 ∈ ecu_tail <$> filter (λ ecu, ecu_kind ecu ∈ PLATFORM_CODE_ECUS) fws.*1)
    as Hmem.
  { intros e He Hr. apply list_elem_of_fmap. exists e.1. split; [done|].
    apply list_elem_of_filter. split; [done|]. apply list_elem_of_fmap. by exists e. }
  induction fws as [|e0 fws IH]; [by apply elem_of_nil in H1|].
  rewrite fmap_cons, filter_cons in Hnd.
  assert (NoDup (ecu_tail <$> filter (λ ecu, ecu_kind ecu ∈ PLATFORM_CODE_ECUS) fws.*1)
          ∧ (required e0 →
             ecu_tail e0.1 ∉ ecu_tail <$> filter (λ ecu, ecu_kind ecu ∈ PLATFORM_CODE_ECUS) fws.*1))
    as [Hnd' Hfresh].
  { destruct (decide (ecu_kind e0.1 ∈ PLATFORM_CODE_ECUS)) as [Hk|Hk].
    - rewrite fmap_cons in Hnd. apply NoDup_cons in Hnd as [? ?]. done.
    - split; [done|]. intros Hr. by destruct Hk. }
  assert (∀ e, e ∈ fws → required e →
               ecu_tail e.1 ∈ ecu_tail <$> filter (λ ecu, ecu_kind ecu ∈ PLATFORM_CODE_ECUS) fws.*1)
    as Hmem'.
  { intros e He Hr. apply list_elem_of_fmap. exists e.1. split; [done|].
    apply list_elem_of_filter. split; [done|]. apply list_elem_of_fmap. by exists e. }
  apply elem_of_cons in H1 as [->|H1], H2 as [->|H2].
  - done.
  - exfalso. apply (Hfresh Hr1). rewrite Htail. by apply Hmem'.
  - exfalso. apply (Hfresh Hr2). rewrite <-Htail. by apply Hmem'.
  - by apply IH.
Qed.

Lemma accepted_iff_all_pass (live : live_t) (fws : fingerprint) :
  NoDup (ecu_tail <$> filter (λ ecu, ecu_kind ecu ∈ PLATFORM_CODE_ECUS) fws.*1) →
  accepted live fws
  ↔ ∀ ecu blobs, (ecu, blobs) ∈ fws → ecu_kind ecu ∈ PLATFORM_CODE_ECUS →
                 ecu_passes live ecu blobs.
Proof.
  intros Hnd. rewrite accepted_collected. split.
  - intros Hsub ecu blobs Hin Hk.
    assert (ecu_tail ecu ∈ collected_ecus live fws) as Hc.
    { apply Hsub, valid_expected_ecus_elem. by exists ecu, blobs. }
    apply collected_ecus_passed in Hc as (ecu' & blobs' & Hin' & Hk' & Htail & Hpass).
    assert ((ecu', blobs') = (ecu, blobs)) as [= -> ->]; [|done].
    by apply (required_entry_unique fws).
  - intros Hall. by rewrite collected_ecus_all.
Qed.

Lemma match_result (FW : gmap string fingerprint) (EXCL : gset string) (live : live_t) :
  ∃ s, match_fw_to_car_fuzzy FW EXCL live = Ok s
    ∧ ∀ c, c ∈ s
           ↔ ((c ∉ EXCL) ∧ ∃ fws, FW !! c = Some fws
                                ∧ valid_expected_ecus fws ⊆ collected_ecus live fws).
Proof.
  destruct (match_fw_to_car_fuzzy_spec FW EXCL live) as (s & Hs & Hmem).
  exists s. split; [done|]. intros c. rewrite Hmem.
  setoid_rewrite accepted_collected. naive_solver.
Qed.

(** X11: the matcher returns only candidates of the catalog. *)
Theorem result_within_catalog (FW : gmap string fingerprint) (EXCL : gset string)
    (live : live_t) :
  ∃ s, match_fw_to_car_fuzzy FW EXCL live = Ok s ∧ s ⊆ dom FW.
Proof.
  destruct (match_result FW EXCL live) as (s & Hs & Hmem).
  exists s. split; [done|]. intros c Hc.
  apply Hmem in Hc as [_ (fws & Hc & _)]. apply elem_of_dom. by exists fws.
Qed.

(** X12: a candidate whose catalog entry has no ECU of a kind in
    [PLATFORM_CODE_ECUS] is returned for every observed fingerprint, the
    empty one included, unless it is excluded. *)
Theorem candidate_without_checked_ecus_always_matches (FW : gmap string fingerprint)
    (EXCL : gset string) (live : live_t) (candidate : string) (fws : fingerprint) :
  FW !! candidate = Some fws →
  Forall (λ entry, ¬ required entry) fws →
  candidate ∉ EXCL →
  ∃ s, match_fw_to_car_fuzzy FW EXCL live = Ok s ∧ CAR.str candidate ∈ s.
Proof.
  intros Hcat Hnone Hex.
  destruct (match_result FW EXCL live) as (s & Hs & Hmem).
  exists s. split; [done|]. apply Hmem. split; [done|]. exists fws. split; [done|].
  intros a Ha. apply valid_expected_ecus_elem in Ha as (ecu & blobs & Hin & Hk & _).
  rewrite Forall_forall in Hnone. by destruct (Hnone _ Hin).
Qed.

Lemma candidate_without_checked_ecus_always_matches_witness :
  let fws : fingerprint :=
    [((Ecu.dsu, 0x791, None), [bytes_of "881510701300" ++ replicate 4 x00]);
     ((Ecu.fwdRadar, 0x750, Some 0xf), [bytes_of "8821F4702000" ++ replicate 4 x00])]%Z in
  ∃ s, match_fw_to_car_fuzzy {[ CAR.RSG_OFFROAD := fws ]} ∅ ∅ = Ok s
       ∧ CAR.RSG_OFFROAD ∈ s.
Proof.
  intros fws.
  apply (candidate_without_checked_ecus_always_matches _ ∅ ∅ CAR.RSG_OFFROAD fws).
  - apply lookup_singleton_eq.
  - repeat constructor; intros Hk; not_required Hk.
  - apply not_elem_of_empty.
Defined.

(** X13: for a candidate whose checked ECUs have pairwise different
    addresses, the matcher returns the candidate exactly when it is not
    excluded and, for every checked ECU, the catalog blobs and the blobs
    observed at its address have a platform code in common. *)
Theorem match_iff_every_checked_ecu_shares_a_code (FW : gmap string fingerprint)
    (EXCL : gset string) (live : live_t) (candidate : string) (fws : fingerprint) :
  FW !! candidate = Some fws →
  NoDup (ecu_tail <$> filter (λ ecu, ecu_kind ecu ∈ PLATFORM_CODE_ECUS) fws.*1) →
  ∃ s, match_fw_to_car_fuzzy FW EXCL live = Ok s
    ∧ (CAR.str candidate ∈ s
       ↔ ((candidate ∉ EXCL)
          ∧ Forall (λ entry, required entry → shares_platform_code live entry.1 entry.2) fws)).
Proof.
  intros Hcat Hnd.
  destruct (match_fw_to_car_fuzzy_spec FW EXCL live) as (s & Hs & Hmem).
  exists s. split; [done|]. unfold CAR.str. rewrite Hmem, Forall_forall. split.
  - intros [(fws' & Hcat' & Hacc) Hex]. split; [done|].
    rewrite Hcat in Hcat'. injection Hcat' as <-.
    intros [ecu blobs] Hin Hk. apply ecu_passes_shares.
    by apply (proj1 (accepted_iff_all_pass live fws Hnd) Hacc).
  - intros [Hex Hall]. split; [|done]. exists fws. split; [done|].
    apply accepted_iff_all_pass; [done|]. intros ecu blobs Hin Hk.
    apply ecu_passes_shares. by apply (Hall (ecu, blobs)).
Qed.

Lemma match_iff_every_checked_ecu_shares_a_code_witness :
  let live : live_t :=
    {[ (0x7b0, None) := {[ bytes_of "F152607099" ++ replicate 6 x00 ]} ]}%Z in
  ∃ s, match_fw_to_car_fuzzy FW_VERSIONS ∅ live = Ok s
    ∧ (CAR.RSG_OFFROAD ∈ s
       ↔ ((CAR.RSG_OFFROAD ∉ (∅ : gset string))
          ∧ Forall (λ entry, required entry → shares_platform_code live entry.1 entry.2)
              (default [] (FW_VERSIONS !! CAR.RSG_OFFROAD)))).
Proof.
  intros live.
  apply (match_iff_every_checked_ecu_shares_a_code FW_VERSIONS ∅ live CAR.RSG_OFFROAD).
  - apply lookup_singleton_eq.
  - apply (bool_decide_unpack _). vm_compute. exact I.
Defined.

(** X14: sub-versions are not compared.  When, for every checked ECU of a
    candidate, some blob observed at its address gives a platform code that
    some catalog blob of that ECU gives too, the candidate is returned,
    unless it is excluded. *)
Theorem shared_code_per_checked_ecu_suffices (FW : gmap string fingerprint)
    (EXCL : gset string) (live : live_t) (candidate : string) (fws : fingerprint) :
  FW !! candidate = Some fws →
  Forall (λ entry, required entry → shares_platform_code live entry.1 entry.2) fws →
  candidate ∉ EXCL →
  ∃ s, match_fw_to_car_fuzzy FW EXCL live = Ok s ∧ CAR.str candidate ∈ s.
Proof.
  intros Hcat Hall Hex. rewrite Forall_forall in Hall.
  destruct (match_result FW EXCL live) as (s & Hs & Hmem).
  exists s. split; [done|]. apply Hmem. split; [done|]. exists fws. split; [done|].
  rewrite collected_ecus_all; [done|]. intros ecu blobs Hin Hk.
  apply ecu_passes_shares. by apply (Hall (ecu, blobs)).
Qed.

Lemma shared_code_per_checked_ecu_suffices_witness :
  let live : live_t :=
    {[ (0x7b0, None) := {[ bytes_of "F152607099" ++ replicate 6 x00 ]};
       (0x7a1, None) := {[ bytes_of "8965B41099" ++ replicate 6 x00 ]};
       (0x750, Some 0x6d) := {[ bytes_of "8646F0701999" ++ replicate 4 x00 ]} ]}%Z in
  ∃ s, match_fw_to_car_fuzzy FW_VERSIONS ∅ live = Ok s ∧ CAR.RSG_OFFROAD ∈ s.
Proof.
  intros live.
  eapply (shared_code_per_checked_ecu_suffices FW_VERSIONS ∅ live CAR.RSG_OFFROAD).
  - apply lookup_singleton_eq.
  - repeat constructor; intros Hk;
      first [not_required Hk | apply ecu_passes_shares; unfold ecu_passes; by_evaluation].
  - apply not_elem_of_empty.
Defined.

(** X15: a candidate is returned only if, at the address of each of its
    checked ECUs, some checked ECU of its catalog entry has a platform code
    in common with the observed blobs.  So a candidate with a checked ECU
    at whose address nothing observed shares a code is not returned. *)
Theorem no_shared_code_rejects (FW : gmap string fingerprint) (EXCL : gset string)
    (live : live_t) (candidate : string) (fws : fingerprint)
    (ecu : ecu_id) (expected_versions : list bytes) :
  FW !! candidate = Some fws →
  (ecu, expected_versions) ∈ fws →
  required (ecu, expected_versions) →
  Forall (λ entry, ecu_tail entry.1 = ecu_tail ecu →
                   ¬ shares_platform_code live entry.1 entry.2) fws →
  ∃ s, match_fw_to_car_fuzzy FW EXCL live = Ok s ∧ CAR.str candidate ∉ s.
Proof.
  intros Hcat Hin Hk Hnone. rewrite Forall_forall in Hnone.
  destruct (match_result FW EXCL live) as (s & Hs & Hmem).
  exists s. split; [done|]. unfold CAR.str. rewrite Hmem.
  intros [_ (fws' & Hcat' & Hsub)]. rewrite Hcat in Hcat'. injection Hcat' as <-.
  assert (ecu_tail ecu ∈ collected_ecus live fws) as Hc.
  { apply Hsub, valid_expected_ecus_elem. by exists ecu, expected_versions. }
  apply collected_ecus_passed in Hc as (ecu' & blobs' & Hin' & _ & Htail & Hpass).
  apply (Hnone (ecu', blobs') Hin' Htail). by apply ecu_passes_shares.
Qed.

Lemma no_shared_code_rejects_witness :
  let live : live_t :=
    {[ (0x7b0, None) := {[ bytes_of "F152607060" ++ replicate 6 x00 ]};
       (0x7a1, None) := {[ bytes_of "8965B42051" ++ replicate 6 x00 ]};
       (0x750, Some 0x6d) := {[ bytes_of "8646F0701100" ++ replicate 4 x00 ]} ]}%Z in
  ∃ s, match_fw_to_car_fuzzy FW_VERSIONS ∅ live = Ok s ∧ CAR.RSG_OFFROAD ∉ s.
Proof.
  intros live.
  eapply (no_shared_code_rejects FW_VERSIONS ∅ live CAR.RSG_OFFROAD _
            (Ecu.eps, 0x7a1%Z, None)).
  - apply lookup_singleton_eq.
  - do 2 apply list_elem_of_further. apply list_elem_of_here.
  - do 2 apply list_elem_of_further. apply list_elem_of_here.
  - repeat constructor; intros Htail; try discriminate Htail.
    intros Hshare. apply ecu_passes_shares in Hshare. revert Hshare. unfold ecu_passes.
    lazymatch goal with
    | |- ?X = true → False => assert (X = false) as -> by by_evaluation; discriminate
    end.
Defined.






Lemma collected_ecus_agree (live1 live2 : live_t) (fws : fingerprint) :
  (∀ ecu blobs, (ecu, blobs) ∈ fws → ecu_kind ecu ∈ PLATFORM_CODE_ECUS →
                default ∅ (live1 !! ecu_tail ecu) = default ∅ (live2 !! ecu_tail ecu)) →
  collected_ecus live1 fws = collected_ecus live2 fws.
Proof.
  induction fws as [|[ecu blobs] fws IH]; intros Hagree; cbn; [done|].
  rewrite IH by (intros ecu' blobs' Hin; apply (Hagree ecu' blobs'); by apply list_elem_of_further).
  case_bool_decide as Hk; [|done].
  by rewrite (Hagree ecu blobs (list_elem_of_here _ _) Hk).
Qed.

(** X17: only the addresses of checked ECUs are read: two observed
    fingerprints that hold the same blobs at the address of every ECU of a
    kind in [PLATFORM_CODE_ECUS] of every catalog entry give the same result,
    whatever they hold elsewhere. *)
Theorem other_addresses_are_not_read (FW : gmap string fingerprint) (EXCL : gset string)
    (live1 live2 : live_t) :
  (∀ candidate fws ecu expected_versions,
     FW !! candidate = Some fws → (ecu, expected_versions) ∈ fws →
     required (ecu, expected_versions) →
     default ∅ (live1 !! ecu_tail ecu) = default ∅ (live2 !! ecu_tail ecu)) →
  match_fw_to_car_fuzzy FW EXCL live1 = match_fw_to_car_fuzzy FW EXCL live2.
Proof.
  intros Hagree.
  destruct (match_result FW EXCL live1) as (s1 & -> & Hmem1).
  destruct (match_result FW EXCL live2) as (s2 & -> & Hmem2).
  f_equal. apply set_eq. intros c. rewrite Hmem1, Hmem2.
  split; intros [Hex (fws & Hcat & Hacc)]; (split; [done|]); exists fws; (split; [done|]).
  - rewrite <-(collected_ecus_agree live1 live2); [done|]. eauto.
  - rewrite (collected_ecus_agree live1 live2); [done|]. eauto.
Qed.

Lemma other_addresses_are_not_read_witness :
  let live1 : live_t :=
    {[ (0x7b0, None) := {[ bytes_of "F152607060" ++ replicate 6 x00 ]} ]}%Z in
  let live2 : live_t :=
    {[ (0x7b0, None) := {[ bytes_of "F152607060" ++ replicate 6 x00 ]};
       (0x7e0, None) := {[ bytes_of "A0C01000" ++ replicate 8 x00 ]} ]}%Z in
  match_fw_to_car_fuzzy FW_VERSIONS ∅ live1 = match_fw_to_car_fuzzy FW_VERSIONS ∅ live2.
Proof.
  intros live1 live2. apply other_addresses_are_not_read.
  intros candidate fws ecu blobs Hcat Hin Hk.
  unfold FW_VERSIONS in Hcat. apply lookup_singleton_Some in Hcat as [_ <-].
  repeat (apply elem_of_cons in Hin as [Hin|Hin];
          [injection Hin as -> ->; first [not_required Hk | by_evaluation]|]).
  by apply elem_of_nil in Hin.
Defined.

Lemma required_only_cons (ecu : ecu_id) (blobs : list bytes) (fws : fingerprint) :
  required_only ((ecu, blobs) :: fws)
  = if bool_decide (ecu_kind ecu ∈ PLATFORM_CODE_ECUS)
    then (ecu, blobs) :: required_only fws else required_only fws.
Proof.
  unfold required_only. rewrite filter_cons. unfold required at 1. cbn [fst].
  case_bool_decide; [by rewrite decide_True|by rewrite decide_False].
Qed.

Lemma collected_ecus_required_only (live : live_t) (fws : fingerprint) :
  collected_ecus live (required_only fws) = collected_ecus live fws.
Proof.
  induction fws as [|[ecu blobs] fws IH]; [done|].
  rewrite required_only_cons. cbn. case_bool_decide as Hk; [|done].
  cbn. rewrite bool_decide_eq_true_2 by done. by rewrite IH.
Qed.

Lemma valid_expected_ecus_required_only (fws : fingerprint) :
  valid_expected_ecus (required_only fws) = valid_expected_ecus fws.
Proof.
  induction fws as [|[ecu blobs] fws IH]; [done|].
  rewrite required_only_cons, valid_expected_ecus_cons.
  case_bool_decide as Hk; [|set_solver].
  rewrite valid_expected_ecus_cons, bool_decide_eq_true_2 by done. by rewrite IH.
Qed.

(** X18: the catalog blobs of ECUs of other kinds are never read: removing
    from every catalog entry the ECUs whose kind is not in
    [PLATFORM_CODE_ECUS] leaves the result unchanged. *)
Theorem unchecked_catalog_ecus_are_not_read (FW : gmap string fingerprint)
    (EXCL : gset string) (live : live_t) :
  match_fw_to_car_fuzzy (required_only <$> FW) EXCL live
  = match_fw_to_car_fuzzy FW EXCL live.
Proof.
  destruct (match_result (required_only <$> FW) EXCL live) as (s1 & -> & Hmem1).
  destruct (match_result FW EXCL live) as (s2 & -> & Hmem2).
  f_equal. apply set_eq. intros c. rewrite Hmem1, Hmem2. split.
  - intros [Hex (fws' & Hcat & Hacc)]. split; [done|].
    rewrite lookup_fmap in Hcat. destruct (FW !! c) as [fws|]; [|done].
    injection Hcat as <-. exists fws. split; [done|].
    by rewrite valid_expected_ecus_required_only, collected_ecus_required_only in Hacc.
  - intros [Hex (fws & Hcat & Hacc)]. split; [done|].
    exists (required_only fws). rewrite lookup_fmap, Hcat. split; [done|].
    by rewrite valid_expected_ecus_required_only, collected_ecus_required_only.
Qed.



Lemma collected_ecus_nothing_observed (fws : fingerprint) :
  collected_ecus ∅ fws = ∅.
Proof.
  induction fws as [|[ecu blobs] fws IH]; [done|]. cbn.
  case_bool_decide; [|done].
  rewrite lookup_empty. cbn. rewrite elements_empty.
  change (platform_codes []) with (∅ : codes_t).
  by rewrite any_code_expected_empty.
Qed.

(** X20: with nothing observed, the matcher returns exactly the candidates
    that are not excluded and whose catalog entry has no ECU of a kind in
    [PLATFORM_CODE_ECUS]. *)
Theorem nothing_observed (FW : gmap string fingerprint) (EXCL : gset string) :
  ∃ s, match_fw_to_car_fuzzy FW EXCL ∅ = Ok s
    ∧ ∀ c, c ∈ s
           ↔ ((c ∉ EXCL)
              ∧ ∃ fws, FW !! c = Some fws ∧ Forall (λ entry, ¬ required entry) fws).
Proof.
  destruct (match_result FW EXCL ∅) as (s & Hs & Hmem).
  exists s. split; [done|]. intros c. rewrite Hmem.
  split; intros [Hex (fws & Hcat & H)]; (split; [done|]); exists fws; (split; [done|]).
  - rewrite collected_ecus_nothing_observed in H. apply Forall_forall.
    intros [ecu blobs] Hin Hk.
    assert (ecu_tail ecu ∈ (∅ : gset ecu_addr)) as Hbad; [|by apply not_elem_of_empty in Hbad].
    apply H, valid_expected_ecus_elem. by exists ecu, blobs.
  - rewrite Forall_forall in H. intros a Ha.
    apply valid_expected_ecus_elem in Ha as (ecu & blobs & Hin & Hk & _).
    by destruct (H _ Hin).
Qed.

(** X21: the exclusion set only removes its members: the result with an
    exclusion set is the result without one, minus the excluded
    candidates. *)
Theorem exclusion_is_a_final_filter (FW : gmap string fingerprint) (EXCL : gset string)
    (live : live_t) :
  ∃ s, match_fw_to_car_fuzzy FW ∅ live = Ok s
       ∧ match_fw_to_car_fuzzy FW EXCL live = Ok (s ∖ EXCL).
Proof.
  destruct (match_result FW ∅ live) as (s0 & Hs0 & Hmem0).
  destruct (match_result FW EXCL live) as (s & Hs & Hmem).
  exists s0. split; [done|]. rewrite Hs. f_equal. apply set_eq. intros c.
  rewrite elem_of_difference, Hmem, Hmem0. set_solver.
Qed.

(** X22: candidates are matched independently of one another: adding a
    candidate to the catalog, or replacing its entry, changes the result for
    no other candidate. *)
Theorem candidates_are_independent (FW : gmap string fingerprint) (EXCL : gset string)
    (live : live_t) (candidate : string) (fws : fingerprint) :
  ∃ s s', match_fw_to_car_fuzzy FW EXCL live = Ok s
          ∧ match_fw_to_car_fuzzy (<[candidate := fws]> FW) EXCL live = Ok s'
          ∧ s' ∖ {[candidate]} = s ∖ {[candidate]}.
Proof.
  destruct (match_result FW EXCL live) as (s & Hs & Hmem).
  destruct (match_result (<[candidate := fws]> FW) EXCL live) as (s' & Hs' & Hmem').
  exists s, s'. split; [done|]. split; [done|]. apply set_eq. intros c.
  rewrite !elem_of_difference, elem_of_singleton, Hmem, Hmem'.
  split; intros [[Hex (fws' & Hcat & Hacc)] Hne]; (split; [|done]); (split; [done|]);
    exists fws'; (split; [|done]).
  - by rewrite lookup_insert_ne in Hcat.
  - by rewrite lookup_insert_ne.
Qed.

(** * Properties of retrofitcan.py and of the controller parameters *)

Lemma foldl_Zadd (acc : Z) (dat : list Z) :
  foldl Z.add acc dat = (acc + sum_bytes dat)%Z.
Proof.
  unfold sum_bytes. revert acc. induction dat as [|x dat IH]; intros acc; cbn.
  - lia.
  - rewrite IH, (IH (0 + x)%Z). lia.
Qed.

Lemma sum_bytes_cons (x : Z) (dat : list Z) :
  sum_bytes (x :: dat) = (x + sum_bytes dat)%Z.
Proof. unfold sum_bytes at 1. cbn. rewrite foldl_Zadd. lia. Qed.

Lemma sum_bytes_app (dat1 dat2 : list Z) :
  sum_bytes (dat1 ++ dat2) = (sum_bytes dat1 + sum_bytes dat2)%Z.
Proof.
  induction dat1 as [|x dat1 IH]; [done|].
  cbn [app]. rewrite !sum_bytes_cons, IH. lia.
Qed.

Lemma toyota_checksum_mod (addr : Z) (dat : list Z) (len : Z) :
  toyota_checksum addr dat len
  = ((sum_bytes dat + (addr `mod` 256 + addr `div` 256 + len)) `mod` 256)%Z.
Proof.
  unfold toyota_checksum. fold (sum_bytes dat).
  change 0xFF%Z with (Z.ones 8).
  rewrite !Z.land_ones, Z.shiftr_div_pow2 by lia. done.
Qed.

(** X23: the checksum is a byte: for all integers (of either sign) it lies
    in 0..255 and is the sum of the data, of the low byte of the address, of
    the address shifted right by 8 and of the length, modulo 256. *)
Theorem toyota_checksum_is_byte (addr : Z) (dat : list Z) (len : Z) :
  (0 ≤ toyota_checksum addr dat len < 256)%Z
  ∧ toyota_checksum addr dat len
    = ((sum_bytes dat + addr `mod` 256 + addr `div` 256 + len) `mod` 256)%Z.
Proof.
  rewrite toyota_checksum_mod. split; [apply Z.mod_pos_bound; lia|].
  f_equal. lia.
Qed.

(** X24: the checksum detects the corruption of one data byte: two data
    lists that differ in exactly one position, both values being bytes, have
    different checksums for the same address and length. *)
Theorem toyota_checksum_detects_one_byte (addr len : Z) (before after : list Z) (x y : Z) :
  (0 ≤ x < 256)%Z → (0 ≤ y < 256)%Z → x ≠ y →
  toyota_checksum addr (before ++ x :: after) len
  ≠ toyota_checksum addr (before ++ y :: after) len.
Proof.
  intros Hx Hy Hne. rewrite !toyota_checksum_mod, !sum_bytes_app, !sum_bytes_cons.
  set (rest := (addr `mod` 256 + addr `div` 256 + len)%Z).
  set (a := sum_bytes before). set (b := sum_bytes after). intros Heq.
  pose proof (Z.div_mod (a + (x + b) + rest) 256 ltac:(lia)) as H1.
  pose proof (Z.div_mod (a + (y + b) + rest) 256 ltac:(lia)) as H2.
  rewrite Heq in H1. lia.
Qed.

Lemma toyota_checksum_detects_one_byte_witness :
  toyota_checksum 0x2E4 [0x81; 0x01; 0x2C]%Z 5 ≠ toyota_checksum 0x2E4 [0x81; 0x01; 0x2D]%Z 5.
Proof.
  apply (toyota_checksum_detects_one_byte 0x2E4 5 [0x81; 0x01]%Z [] 0x2C 0x2D); lia.
Defined.

(** X25: the checksum does not depend on the order of the data bytes, so it
    cannot detect that bytes were swapped. *)
Theorem toyota_checksum_ignores_order (addr len : Z) (dat dat' : list Z) :
  dat ≡ₚ dat' → toyota_checksum addr dat len = toyota_checksum addr dat' len.
Proof.
  intros Hperm. rewrite !toyota_checksum_mod. do 2 f_equal.
  induction Hperm as [|x l l' _ IH|x y l|l l' l'' _ IH1 _ IH2].
  - done.
  - rewrite !sum_bytes_cons. lia.
  - rewrite !sum_bytes_cons. lia.
  - congruence.
Qed.

Lemma toyota_checksum_ignores_order_witness :
  toyota_checksum 0x2E4 [0x81; 0x01; 0x2C]%Z 5 = toyota_checksum 0x2E4 [0x2C; 0x81; 0x01]%Z 5.
Proof.
  apply toyota_checksum_ignores_order.
  apply (Permutation_app_comm [0x81; 0x01]%Z [0x2C]%Z).
Defined.

(** X26: the counter of the gas command wraps at 16: the messages built for
    [idx] and for [idx + 16] are the same, for every packer and gas amount. *)
Theorem gas_command_counter_wraps `{HE : Helpers} (packer : CANPacker)
    (gas_amount : float) (idx : Z) :
  create_gas_command packer gas_amount (idx + 16) = create_gas_command packer gas_amount idx.
Proof.
  unfold create_gas_command.
  replace (Z.land (idx + 16) 15) with (Z.land idx 15); [done|].
  change 15%Z with (Z.ones 4). rewrite !Z.land_ones by lia.
  change (2 ^ 4)%Z with 16%Z. by rewrite <-(Z_mod_plus_full idx 1 16).
Qed.

(** X27: whatever the car parameters, the limits set by
    [CarControllerParams.__init__] keep [STEER_DELTA_DOWN] below 45 (the
    value above which the source says the EPS faults), and
    [STEER_DELTA_UP] positive and below [STEER_DELTA_DOWN]. *)
Theorem steer_delta_limits (lateralTuning_is_torque : bool) :
  let params := CarControllerParams_init lateralTuning_is_torque in
  (STEER_DELTA_DOWN params < 45)%Z
  ∧ (0 < STEER_DELTA_UP params < STEER_DELTA_DOWN params)%Z.
Proof. destruct lateralTuning_is_torque; cbn; lia. Qed.
